(** * Voice media control: command matcher, key dispatcher and listener

    A shallow embedding of [commands.py] and [listener.py], of
    [load_config] of [config.py], and of what [settings.py] and [main.py]
    compute around them.

    - Python [str] values are lists of characters.  Characters are the
      code points below 256 ([ascii]); on that range [str.lower] and
      [str.strip] are character-wise and are written out below as CPython
      computes them.
    - A [dict] whose iteration order matters ([config["commands"]]) is an
      association list in insertion order.
    - Code with effects (key injection, callbacks, the capture device, the
      recognition engine, exceptions) runs in a small state-and-exception
      monad over a [World]: the listener object, the worker thread's
      liveness and the trace of externally visible events.  The answers of
      the external collaborators are read from an [Env]. *)

From Stdlib Require Import List String Ascii Bool Arith NArith Lia.
Import ListNotations.

Set Implicit Arguments.

(* ===================================================================== *)
(** ** Python strings *)
(* ===================================================================== *)

Module PyStr.

Definition str := list ascii.

(** A literal. *)
Definition py (s : string) : str := list_ascii_of_string s.

Arguments py : simpl never.

Definition code (c : ascii) : N := N_of_ascii c.

(** [str.isspace] for one character (Py_UNICODE_ISSPACE, code points < 256):
    TAB..CR, FS..US, SPACE, NEL and NBSP. *)
Definition isspace (c : ascii) : bool :=
  let n := code c in
  (((9 <=? n) && (n <=? 13)) || ((28 <=? n) && (n <=? 32))
   || (n =? 133) || (n =? 160))%N.

(** [str.lower] for one character: A..Z and the Latin-1 capitals
    (0xC0..0xDE without the multiplication sign 0xD7) move up by 32. *)
Definition lower_char (c : ascii) : ascii :=
  let n := code c in
  if (((65 <=? n) && (n <=? 90))
      || ((192 <=? n) && (n <=? 222) && negb (n =? 215)))%N
  then ascii_of_N (n + 32) else c.

(** [s.lower()] *)
Definition str_lower (s : str) : str := map lower_char s.

(** [s.lstrip()], [s.rstrip()], [s.strip()] *)
Fixpoint str_lstrip (s : str) : str :=
  match s with
  | [] => []
  | c :: s' => if isspace c then str_lstrip s' else s
  end.

Definition str_rstrip (s : str) : str := rev (str_lstrip (rev s)).

Definition str_strip (s : str) : str := str_rstrip (str_lstrip s).

(** [s.startswith(w)] *)
Fixpoint startswith (w s : str) : bool :=
  match w, s with
  | [], _ => true
  | _ :: _, [] => false
  | a :: w', b :: s' => Ascii.eqb a b && startswith w' s'
  end.

(** [w in s]: [w] occurs in [s] as a contiguous substring. *)
Fixpoint str_in (w s : str) : bool :=
  match s with
  | [] => startswith w []
  | _ :: s' => startswith w s || str_in w s'
  end.

(** [s.find(w)]: the index of the first occurrence, [None] for -1. *)
Fixpoint str_find (w s : str) : option nat :=
  match s with
  | [] => if startswith w [] then Some 0 else None
  | _ :: s' => if startswith w s then Some 0 else option_map S (str_find w s')
  end.

(** The scan of [s.replace(old, new)] for a non-empty [old]: left to right,
    every occurrence found is replaced and the scan resumes behind it, so
    the occurrences replaced do not overlap.  [skip] counts the characters
    of a matched occurrence that are still to be passed over. *)
Fixpoint replace_scan (old new : str) (skip : nat) (s : str) : str :=
  match s with
  | [] => []
  | c :: s' =>
      match skip with
      | S k => replace_scan old new k s'
      | O =>
          if startswith old s
          then new ++ replace_scan old new (List.length old - 1) s'
          else c :: replace_scan old new 0 s'
      end
  end.

(** [s.replace(old, new)], all occurrences.  For an empty [old] Python
    puts [new] before every character and at the end. *)
Definition str_replace (old new s : str) : str :=
  match old with
  | [] => new ++ flat_map (fun c => c :: new) s
  | _ :: _ => replace_scan old new 0 s
  end.

(** String equality, [a == b]. *)
Definition str_eqb (a b : str) : bool :=
  if list_eq_dec ascii_dec a b then true else false.

(** Truthiness of a string: [if s:]. *)
Definition truthy (s : str) : bool :=
  match s with [] => false | _ :: _ => true end.

End PyStr.

Import PyStr.

(* ===================================================================== *)
(** ** Configuration *)
(* ===================================================================== *)

(** The configuration dict.  A field is [None] when the key is absent; the
    code reads every key with [config.get(key, default)]. *)
Record Config := mkConfig {
  wake_word_enabled : option bool;
  wake_word : option str;
  commands : option (list (str * list str));
  mic_device : option nat
}.

(** [config.get("wake_word_enabled", True)] *)
Definition get_wake_word_enabled (config : Config) : bool :=
  match wake_word_enabled config with Some b => b | None => true end.

(** [config.get("wake_word", "hey music")] *)
Definition get_wake_word (config : Config) : str :=
  match wake_word config with Some w => w | None => py "hey music" end.

(** [config.get("commands", {}).items()] *)
Definition get_commands (config : Config) : list (str * list str) :=
  match commands config with Some c => c | None => [] end.

(** [DEFAULT_CONFIG] of [config.py]. *)
Definition DEFAULT_CONFIG : Config :=
  {| wake_word_enabled := Some true;
     wake_word := Some (py "hey music");
     commands := Some [ (py "next", [py "next"; py "skip"]);
                        (py "back", [py "back"; py "previous"]);
                        (py "pause", [py "pause"; py "stop"]);
                        (py "play", [py "play"; py "resume"]) ];
     mic_device := None |}.

(* ===================================================================== *)
(** ** Effects: the world, the environment and the monad *)
(* ===================================================================== *)

Module Effects.

(** An instance of [Exception]; [msg] is [str(e)]. *)
Inductive exn := Exception (msg : str).

Definition exn_str (e : exn) : str := match e with Exception msg => msg end.

(** How a call into an external collaborator ends. *)
Inductive outcome := Returns | Raises (e : exn).

(** The pynput media keys the program uses. *)
Inductive Key := media_next | media_previous | media_play_pause.

(** One buffer delivered by the capture device, [bytes(indata)]. *)
Definition frame := list Byte.byte.

(** What [recognizer.AcceptWaveform(data)] followed by
    [json.loads(recognizer.Result()).get("text", "")] gives for one frame:
    the utterance is final with this text, it is not final yet, or the
    engine raises. *)
Inductive feed_result :=
| Final (text : str)
| Partial
| FeedError (e : exn).

(** Externally visible events, in the order they happen. *)
Inductive event :=
| KeyDown (key : Key)            (* keyboard.press(key) went through *)
| KeyUp (key : Key)              (* keyboard.release(key) went through *)
| OnCommand (action : str)       (* self.on_command(action) *)
| OnError (msg : str)            (* self.on_error(msg) *)
| OnStatus (status : str)        (* self.on_status(status) *)
| StreamOpened (device : option nat)
| StreamStarted
| StreamStopped
| StreamClosed
| ThreadStarted                  (* self._thread.start() *)
| ThreadJoined                   (* self._thread.join(timeout=2.0) *)
| ThreadDied (e : exn)           (* an exception left the thread's target *)
| EngineFed (data : frame).      (* recognizer.AcceptWaveform(data) called *)

(** The answers of the external collaborators. *)
Record Env := mkEnv {
  model_path : str;                          (* get_model_path() *)
  path_exists : bool;                        (* os.path.exists(model_path) *)
  Model_new : outcome;                       (* Model(model_path) *)
  KaldiRecognizer_new : outcome;             (* KaldiRecognizer(model, rate) *)
  RawInputStream_new : option nat -> outcome; (* sd.RawInputStream(device=..) *)
  stream_start : outcome;
  stream_stop : outcome;
  stream_close : outcome;
  keyboard_press : Key -> outcome;
  keyboard_release : Key -> outcome
}.

(** Handles of the objects the listener holds. *)
Inductive Model := VoskModel.
Inductive KaldiRecognizer := Recognizer.
Inductive RawInputStream := Stream.
Inductive Thread := WorkerThread.
Inductive callback := Callback.

(** The attributes of a [VoiceListener] instance. *)
Record VoiceListener := mkListener {
  config : Config;
  on_command : option callback;
  on_error : option callback;
  on_status : option callback;
  model : option Model;
  recognizer : option KaldiRecognizer;
  stream : option RawInputStream;
  audio_queue : list frame;          (* queue.Queue(), head = oldest *)
  _running : bool;
  _paused : bool;
  _thread : option Thread
}.

(** [VoiceListener.__init__] *)
Definition init (config : Config) (on_command on_error on_status : option callback)
  : VoiceListener :=
  {| config := config; on_command := on_command; on_error := on_error;
     on_status := on_status; model := None; recognizer := None;
     stream := None; audio_queue := []; _running := false;
     _paused := false; _thread := None |}.

Record World := mkWorld {
  self : VoiceListener;
  worker_alive : bool;               (* self._thread.is_alive() *)
  trace : list event
}.

(** A computation either returns a value or raises; the world it leaves
    behind keeps every change made before the exception. *)
Inductive result (A : Type) :=
| Return (a : A)
| Raise (e : exn).

Arguments Return {A} a.
Arguments Raise {A} e.

Definition M (A : Type) : Type := World -> result A * World.

Definition ret {A} (a : A) : M A := fun w => (Return a, w).

Definition bind {A B} (c : M A) (k : A -> M B) : M B :=
  fun w =>
    match c w with
    | (Return a, w') => k a w'
    | (Raise e, w') => (Raise e, w')
    end.

Definition raise {A} (e : exn) : M A := fun w => (Raise e, w).

(** [try: c  except Exception as e: h e] *)
Definition try_except {A} (c : M A) (h : exn -> M A) : M A :=
  fun w =>
    match c w with
    | (Return a, w') => (Return a, w')
    | (Raise e, w') => h e w'
    end.

Definition get_self : M VoiceListener := fun w => (Return (self w), w).

Definition is_alive : M bool := fun w => (Return (worker_alive w), w).

Definition modify_self (f : VoiceListener -> VoiceListener) : M unit :=
  fun w => (Return tt, {| self := f (self w);
                          worker_alive := worker_alive w;
                          trace := trace w |}).

Definition set_alive (b : bool) : M unit :=
  fun w => (Return tt, {| self := self w; worker_alive := b; trace := trace w |}).

Definition emit (ev : event) : M unit :=
  fun w => (Return tt, {| self := self w;
                          worker_alive := worker_alive w;
                          trace := trace w ++ [ev] |}).

(** A call into a collaborator: on return the event is recorded. *)
Definition extern (o : outcome) (ev : event) : M unit :=
  match o with
  | Returns => emit ev
  | Raises e => raise e
  end.

Definition exec {A} (c : M A) (w : World) : World := snd (c w).
Definition eval {A} (c : M A) (w : World) : result A := fst (c w).

End Effects.

Import Effects.

Declare Scope py_scope.
Delimit Scope py_scope with py.
Notation "x <- c ;; k" := (bind c (fun x => k))
  (at level 61, c at next level, right associativity) : py_scope.
Notation "c ;; k" := (bind c (fun _ => k))
  (at level 61, right associativity) : py_scope.
Local Open Scope py_scope.

(** Field updates of the listener object. *)
Definition set_config (c : Config) (l : VoiceListener) : VoiceListener :=
  {| config := c; on_command := on_command l; on_error := on_error l;
     on_status := on_status l; model := model l; recognizer := recognizer l;
     stream := stream l; audio_queue := audio_queue l;
     _running := _running l; _paused := _paused l; _thread := _thread l |}.

Definition set_model (m : option Model) (l : VoiceListener) : VoiceListener :=
  {| config := config l; on_command := on_command l; on_error := on_error l;
     on_status := on_status l; model := m; recognizer := recognizer l;
     stream := stream l; audio_queue := audio_queue l;
     _running := _running l; _paused := _paused l; _thread := _thread l |}.

Definition set_recognizer (r : option KaldiRecognizer) (l : VoiceListener)
  : VoiceListener :=
  {| config := config l; on_command := on_command l; on_error := on_error l;
     on_status := on_status l; model := model l; recognizer := r;
     stream := stream l; audio_queue := audio_queue l;
     _running := _running l; _paused := _paused l; _thread := _thread l |}.

Definition set_stream (s : option RawInputStream) (l : VoiceListener)
  : VoiceListener :=
  {| config := config l; on_command := on_command l; on_error := on_error l;
     on_status := on_status l; model := model l; recognizer := recognizer l;
     stream := s; audio_queue := audio_queue l;
     _running := _running l; _paused := _paused l; _thread := _thread l |}.

Definition set_queue (q : list frame) (l : VoiceListener) : VoiceListener :=
  {| config := config l; on_command := on_command l; on_error := on_error l;
     on_status := on_status l; model := model l; recognizer := recognizer l;
     stream := stream l; audio_queue := q;
     _running := _running l; _paused := _paused l; _thread := _thread l |}.

Definition set_running (b : bool) (l : VoiceListener) : VoiceListener :=
  {| config := config l; on_command := on_command l; on_error := on_error l;
     on_status := on_status l; model := model l; recognizer := recognizer l;
     stream := stream l; audio_queue := audio_queue l;
     _running := b; _paused := _paused l; _thread := _thread l |}.

Definition set_paused (b : bool) (l : VoiceListener) : VoiceListener :=
  {| config := config l; on_command := on_command l; on_error := on_error l;
     on_status := on_status l; model := model l; recognizer := recognizer l;
     stream := stream l; audio_queue := audio_queue l;
     _running := _running l; _paused := b; _thread := _thread l |}.

Definition set_thread (t : option Thread) (l : VoiceListener) : VoiceListener :=
  {| config := config l; on_command := on_command l; on_error := on_error l;
     on_status := on_status l; model := model l; recognizer := recognizer l;
     stream := stream l; audio_queue := audio_queue l;
     _running := _running l; _paused := _paused l; _thread := t |}.

(** [if cb: cb(arg)]: a registered callback is invoked (and returns). *)
Definition call (cb : option callback) (ev : event) : M unit :=
  match cb with
  | Some _ => emit ev
  | None => ret tt
  end.

(* ===================================================================== *)
(** ** commands.py: the matcher *)
(* ===================================================================== *)

Module Commands.

(** The inner loop, [for trigger in triggers: if trigger.lower() in text]:
    [true] when the loop reaches its [return action]. *)
Fixpoint match_triggers (text : str) (triggers : list str) : bool :=
  match triggers with
  | [] => false
  | trigger :: rest =>
      if str_in (str_lower trigger) text then true
      else match_triggers text rest
  end.

(** The outer loop, [for action, triggers in commands.items()]. *)
Fixpoint match_commands (text : str) (items : list (str * list str))
  : option str :=
  match items with
  | [] => None
  | (action, triggers) :: rest =>
      if match_triggers text triggers then Some action
      else match_commands text rest
  end.

(** [match_command(text, config)] *)
Definition match_command (text : str) (config : Config) : option str :=
  let text := str_strip (str_lower text) in
  if negb (truthy text) then None
  else if get_wake_word_enabled config then
    let wake_word := str_lower (get_wake_word config) in
    if negb (str_in wake_word text) then None
    else
      let text := str_strip (str_replace wake_word [] text) in
      match_commands text (get_commands config)
  else match_commands text (get_commands config).

(** The text the trigger loops search once the wake-word gate is passed
    (lines 51-56): the wake word is cut out when the gate is enabled. *)
Definition remaining_text (text : str) (config : Config) : str :=
  let text := str_strip (str_lower text) in
  if get_wake_word_enabled config
  then str_strip (str_replace (str_lower (get_wake_word config)) [] text)
  else text.

(** The wake-word gate of lines 45-54: the normalised text is not empty
    and, when the gate is enabled, contains the lowercased wake word. *)
Definition passes_gate (text : str) (config : Config) : bool :=
  let text := str_strip (str_lower text) in
  truthy text &&
  (negb (get_wake_word_enabled config)
   || str_in (str_lower (get_wake_word config)) text).

(** What the specification describes for step 2: cut out the first
    occurrence only (Python's [s.replace(w, "", 1)]). *)
Definition remove_first (w s : str) : str :=
  match str_find w s with
  | None => s
  | Some i => firstn i s ++ skipn (i + List.length w) s
  end.

(** [MEDIA_KEYS] *)
Definition MEDIA_KEYS : list (str * Key) :=
  [ (py "next", media_next);
    (py "back", media_previous);
    (py "pause", media_play_pause);
    (py "play", media_play_pause) ].

(** [d.get(k)] on a dict with string keys. *)
Fixpoint dict_get {V : Type} (d : list (str * V)) (k : str) : option V :=
  match d with
  | [] => None
  | (k', v) :: rest => if str_eqb k' k then Some v else dict_get rest k
  end.

(** [send_media_key(action)].  Members of the [Key] enum are truthy, so
    [if key:] tests that the lookup found one. *)
Definition send_media_key (env : Env) (action : str) : M bool :=
  match dict_get MEDIA_KEYS action with
  | Some key =>
      try_except
        (extern (keyboard_press env key) (KeyDown key) ;;
         extern (keyboard_release env key) (KeyUp key) ;;
         ret true)
        (fun _ => ret false)
  | None => ret false
  end.

End Commands.

Import Commands.

(* ===================================================================== *)
(** ** listener.py *)
(* ===================================================================== *)

Module Listener.

(** [VoiceListener._load_model] *)
Definition _load_model (env : Env) : M bool :=
  if negb (path_exists env) then
    l <- get_self ;;
    call (on_error l)
         (OnError (py "Vosk model not found at: " ++ model_path env)) ;;
    ret false
  else
    try_except
      (match Model_new env with
       | Returns => modify_self (set_model (Some VoskModel))
       | Raises e => raise e
       end ;;
       match KaldiRecognizer_new env with
       | Returns => modify_self (set_recognizer (Some Recognizer))
       | Raises e => raise e
       end ;;
       ret true)
      (fun e =>
         l <- get_self ;;
         call (on_error l)
              (OnError (py "Failed to load Vosk model: " ++ exn_str e)) ;;
         ret false).

(** [VoiceListener._audio_callback]; the [status] warning is only logged. *)
Definition _audio_callback (indata : frame) : M unit :=
  l <- get_self ;;
  if negb (_paused l)
  then modify_self (set_queue (audio_queue l ++ [indata]))
  else ret tt.

(** [VoiceListener._handle_recognition] *)
Definition _handle_recognition (env : Env) (text : str) : M unit :=
  l <- get_self ;;
  match match_command text (config l) with
  | Some action =>
      if truthy action then
        send_media_key env action ;;
        l <- get_self ;;
        call (on_command l) (OnCommand action)
      else ret tt
  | None => ret tt
  end.

(** What one pass through the [while self._running:] loop decides. *)
Inductive loop := Continue | Exit.

(** One pass of [VoiceListener._process_audio].  [answer] is what the
    engine answers if this pass feeds it a frame.  An empty queue stands
    for [queue.Empty] after the 0.5 s timeout.  Calling a method of
    [self.recognizer] while it is [None] raises [AttributeError]. *)
Definition _process_audio_pass (env : Env) (answer : feed_result) : M loop :=
  l <- get_self ;;
  if negb (_running l) then ret Exit
  else
    match audio_queue l with
    | [] => ret Continue
    | data :: rest =>
        modify_self (set_queue rest) ;;
        l <- get_self ;;
        if _paused l then ret Continue
        else
          match recognizer l with
          | None =>
              raise (Exception
                (py "'NoneType' object has no attribute 'AcceptWaveform'"))
          | Some _ =>
              match answer with
              | FeedError e => raise e
              | Partial => emit (EngineFed data) ;; ret Continue
              | Final text =>
                  emit (EngineFed data) ;;
                  (if truthy text then _handle_recognition env text
                   else ret tt) ;;
                  ret Continue
              end
          end
    end.

(** The worker thread runs [_process_audio] as its target: the thread ends
    when the loop exits or when an exception leaves the target (Python
    then prints the traceback through [threading.excepthook]). *)
Definition worker_pass (env : Env) (answer : feed_result) : M unit :=
  alive <- is_alive ;;
  if negb alive then ret tt
  else
    try_except
      (r <- _process_audio_pass env answer ;;
       match r with
       | Continue => ret tt
       | Exit => set_alive false
       end)
      (fun e => set_alive false ;; emit (ThreadDied e)).

(** [VoiceListener.start] *)
Definition start (env : Env) : M bool :=
  l <- get_self ;;
  if _running l then ret true
  else
    loaded <- _load_model env ;;
    if negb loaded then ret false
    else
      l <- get_self ;;
      let mic_device := mic_device (config l) in
      opened <-
        try_except
          (match RawInputStream_new env mic_device with
           | Returns =>
               modify_self (set_stream (Some Stream)) ;;
               emit (StreamOpened mic_device)
           | Raises e => raise e
           end ;;
           extern (stream_start env) StreamStarted ;;
           ret true)
          (fun e =>
             l <- get_self ;;
             call (on_error l)
                  (OnError (py "Failed to open microphone: " ++ exn_str e)) ;;
             ret false) ;;
      if negb opened then ret false
      else
        modify_self (set_running true) ;;
        modify_self (set_paused false) ;;
        modify_self (set_thread (Some WorkerThread)) ;;
        set_alive true ;;
        emit ThreadStarted ;;
        l <- get_self ;;
        call (on_status l) (OnStatus (py "listening")) ;;
        ret true.

(** The loop [while not self.audio_queue.empty(): get_nowait()] of [stop]:
    every pass removes the oldest frame. *)
Fixpoint drain (q : list frame) : list frame :=
  match q with
  | [] => []
  | _ :: rest => drain rest
  end.

(** [VoiceListener.stop].  [self._thread.join(timeout=2.0)] waits for the
    worker to leave its loop: the running flag is already cleared, so the
    worker's next look at it, at most one queue timeout of 0.5 s away, is
    its last, and the thread has ended when the join returns. *)
Definition stop (env : Env) : M unit :=
  modify_self (set_running false) ;;
  l <- get_self ;;
  match stream l with
  | Some _ =>
      try_except
        (extern (stream_stop env) StreamStopped ;;
         extern (stream_close env) StreamClosed)
        (fun _ => ret tt) ;;
      modify_self (set_stream None)
  | None => ret tt
  end ;;
  l <- get_self ;;
  alive <- is_alive ;;
  match _thread l with
  | Some _ => if alive then emit ThreadJoined ;; set_alive false else ret tt
  | None => ret tt
  end ;;
  modify_self (set_model None) ;;
  modify_self (set_recognizer None) ;;
  l <- get_self ;;
  modify_self (set_queue (drain (audio_queue l))).

(** [VoiceListener.pause] *)
Definition pause : M unit :=
  modify_self (set_paused true) ;;
  l <- get_self ;;
  call (on_status l) (OnStatus (py "paused")).

(** [VoiceListener.resume] *)
Definition resume : M unit :=
  modify_self (set_paused false) ;;
  l <- get_self ;;
  call (on_status l) (OnStatus (py "listening")).

(** [VoiceListener.is_paused], [VoiceListener.is_running] *)
Definition is_paused : M bool := l <- get_self ;; ret (_paused l).
Definition is_running : M bool := l <- get_self ;; ret (_running l).

(** [VoiceListener.reload_config] *)
Definition reload_config (config : Config) : M unit :=
  modify_self (set_config config).

(** What the three threads can do to the listener: the capture thread
    delivers a buffer, the worker makes one pass of its loop, and the
    caller's thread invokes a public method. *)
Inductive action :=
| Capture (indata : frame)
| Worker (answer : feed_result)
| CallStart
| CallStop
| CallPause
| CallResume
| CallReload (config : Config).

Definition step (env : Env) (a : action) (w : World) : World :=
  match a with
  | Capture indata => exec (_audio_callback indata) w
  | Worker answer => exec (worker_pass env answer) w
  | CallStart => exec (start env) w
  | CallStop => exec (stop env) w
  | CallPause => exec pause w
  | CallResume => exec resume w
  | CallReload c => exec (reload_config c) w
  end.

(** An interleaving of the threads, one action after the other. *)
Definition run (env : Env) (acts : list action) (w : World) : World :=
  fold_left (fun w a => step env a w) acts w.

(** Actions that never clear the paused flag. *)
Definition keeps_pause (a : action) : bool :=
  match a with
  | CallResume | CallStart => false
  | _ => true
  end.

(** The frames the engine was fed, in order. *)
Definition fed (tr : list event) : list frame :=
  flat_map (fun ev => match ev with EngineFed d => [d] | _ => [] end) tr.

End Listener.

Import Listener.

(** A fresh world around a listener. *)
Definition world0 (l : VoiceListener) : World :=
  {| self := l; worker_alive := false; trace := [] |}.

(** An environment in which every collaborator works. *)
Definition env_ok : Env :=
  {| model_path := py "model"; path_exists := true;
     Model_new := Returns; KaldiRecognizer_new := Returns;
     RawInputStream_new := fun _ => Returns;
     stream_start := Returns; stream_stop := Returns; stream_close := Returns;
     keyboard_press := fun _ => Returns;
     keyboard_release := fun _ => Returns |}.

(** ** Worlds, environments and configurations used below *)

(** The world with more events on its trace. *)
Definition add_events (evs : list event) (w : World) : World :=
  {| self := self w; worker_alive := worker_alive w; trace := trace w ++ evs |}.

(** The world around another listener object. *)
Definition with_self (l : VoiceListener) (w : World) : World :=
  {| self := l; worker_alive := worker_alive w; trace := trace w |}.

(** The events of [if cb: cb(arg)]. *)
Definition callback_events (cb : option callback) (ev : event) : list event :=
  match cb with Some _ => [ev] | None => [] end.

Definition returns (o : outcome) : bool :=
  match o with Returns => true | Raises _ => false end.

(** Every step of [start] for the given device goes through: the model
    directory exists, the engine is built, the stream opens and starts. *)
Definition startup_ok (env : Env) (device : option nat) : bool :=
  path_exists env && returns (Model_new env) && returns (KaldiRecognizer_new env)
  && returns (RawInputStream_new env device) && returns (stream_start env).

(** The calls of [stop] on the capture device that go through. *)
Definition device_events (env : Env) (s : option RawInputStream) : list event :=
  match s with
  | None => []
  | Some _ =>
      match stream_stop env with
      | Raises _ => []
      | Returns =>
          StreamStopped ::
          match stream_close env with
          | Raises _ => []
          | Returns => [StreamClosed]
          end
      end
  end.

(** The join of [stop]. *)
Definition join_events (t : option Thread) (alive : bool) : list event :=
  match t with
  | Some _ => if alive then [ThreadJoined] else []
  | None => []
  end.

(** Whether the worker lives after the join of [stop]. *)
Definition alive_after_join (t : option Thread) (alive : bool) : bool :=
  match t with
  | Some _ => false
  | None => alive
  end.

(** The listener object [stop] leaves behind. *)
Definition stopped (l : VoiceListener) : VoiceListener :=
  set_queue []
    (set_recognizer None
       (set_model None (set_stream None (set_running false l)))).


(** A configuration in which "music" pauses and "next" skips. *)
Definition config_twice : Config :=
  {| wake_word_enabled := Some true;
     wake_word := Some (py "hey music");
     commands := Some [ (py "pause", [py "music"]); (py "next", [py "next"]) ];
     mic_device := None |}.

(** A wake word stored with a trailing blank. *)
Definition config_blank : Config :=
  {| wake_word_enabled := Some true;
     wake_word := Some (py "hey music ");
     commands := Some [ (py "next", [py "next"]) ];
     mic_device := None |}.

(** Declared [back] before [next]; the wake word is off. *)
Definition config_back_next : Config :=
  {| wake_word_enabled := Some false;
     wake_word := None;
     commands := Some [ (py "back", [py "back"]); (py "next", [py "next"]) ];
     mic_device := None |}.

(** A mapping with one entry for an arbitrary action name. *)
Definition config_single (action : str) : Config :=
  {| wake_word_enabled := Some false;
     wake_word := None;
     commands := Some [ (action, [py "louder"]) ];
     mic_device := None |}.

(** The triggers of [next] changed to "forward". *)
Definition config_forward : Config :=
  {| wake_word_enabled := Some true;
     wake_word := Some (py "hey music");
     commands := Some [ (py "next", [py "forward"]) ];
     mic_device := None |}.

(** An engine answer that is an error. *)
Definition engine_failure : exn := Exception (py "recognizer failed").

(** A keyboard whose key-down call fails. *)
Definition env_no_keyboard : Env :=
  {| model_path := py "model"; path_exists := true;
     Model_new := Returns; KaldiRecognizer_new := Returns;
     RawInputStream_new := fun _ => Returns;
     stream_start := Returns; stream_stop := Returns; stream_close := Returns;
     keyboard_press := fun _ => Raises (Exception (py "no display"));
     keyboard_release := fun _ => Returns |}.

(** No microphone. *)
Definition env_no_mic : Env :=
  {| model_path := py "model"; path_exists := true;
     Model_new := Returns; KaldiRecognizer_new := Returns;
     RawInputStream_new := fun _ => Raises (Exception (py "no device"));
     stream_start := Returns; stream_stop := Returns; stream_close := Returns;
     keyboard_press := fun _ => Returns;
     keyboard_release := fun _ => Returns |}.

(** A listener as [main.py] builds it, with all three callbacks. *)
Definition listener0 : VoiceListener :=
  init DEFAULT_CONFIG (Some Callback) (Some Callback) (Some Callback).

(** A session that is listening with one frame waiting. *)
Definition world_listening : World :=
  {| self := set_queue [[Byte.x01]]
               (set_thread (Some WorkerThread)
                  (set_running true
                     (set_stream (Some Stream)
                        (set_recognizer (Some Recognizer)
                           (set_model (Some VoskModel) listener0)))));
     worker_alive := true;
     trace := [] |}.

(* ===================================================================== *)
(** ** listener.py: the list of microphones *)
(* ===================================================================== *)

(** One entry of [sd.query_devices()], with the two keys the code reads. *)
Record Device := mkDevice {
  name : str;
  max_input_channels : nat
}.

(** [enumerate(devices)], counting from [i]. *)
Fixpoint enumerate {A : Type} (i : nat) (l : list A) : list (nat * A) :=
  match l with
  | [] => []
  | x :: rest => (i, x) :: enumerate (S i) rest
  end.

(** The loop of [get_available_mics]; an entry [{'index': i, 'name': n}]
    is the pair [(i, n)]. *)
Fixpoint mic_loop (items : list (nat * Device)) : list (nat * str) :=
  match items with
  | [] => []
  | (i, device) :: rest =>
      if 0 <? max_input_channels device
      then (i, name device) :: mic_loop rest
      else mic_loop rest
  end.

(** [get_available_mics()]; [query_devices] is what [sd.query_devices()]
    does: it returns the device list or raises. *)
Definition get_available_mics (query_devices : result (list Device))
  : list (nat * str) :=
  match query_devices with
  | Return devices => mic_loop (enumerate 0 devices)
  | Raise _ => []
  end.

(* ===================================================================== *)
(** ** config.py: loading the configuration *)
(* ===================================================================== *)

Module ConfigFile.

(** [d[k] = v] on a dict in insertion order: an existing key keeps its
    place, a new key goes to the end. *)
Fixpoint dict_set {V : Type} (d : list (str * V)) (k : str) (v : V)
  : list (str * V) :=
  match d with
  | [] => [(k, v)]
  | (k', v') :: rest =>
      if str_eqb k' k then (k', v) :: rest else (k', v') :: dict_set rest k v
  end.

(** [{**a, **b}] *)
Definition dict_merge {V : Type} (a b : list (str * V)) : list (str * V) :=
  fold_left (fun d kv => dict_set d (fst kv) (snd kv)) b a.

(** What [load_config] finds at [CONFIG_PATH]: no file, a file that cannot
    be read or parsed ([IOError], [JSONDecodeError]), or a JSON object.  Of
    the object the four keys of [Config] are kept, each [None] when absent;
    its ["commands"] value is a dict.  Files outside this shape (a value
    of another type, JSON that is not an object, bytes that are not UTF-8)
    are covered by [ConfigJson] below. *)
Inductive config_file :=
| Missing
| Unreadable
| Parsed (user_config : Config).

(** The commands of [DEFAULT_CONFIG]. *)
Definition default_commands : list (str * list str) :=
  get_commands DEFAULT_CONFIG.

(** The merge loop of [load_config], lines 42-47. *)
Definition merge_user (user_config : Config) : Config :=
  {| wake_word_enabled :=
       match wake_word_enabled user_config with
       | Some v => Some v
       | None => wake_word_enabled DEFAULT_CONFIG
       end;
     wake_word :=
       match wake_word user_config with
       | Some v => Some v
       | None => wake_word DEFAULT_CONFIG
       end;
     commands :=
       match commands user_config with
       | Some value => Some (dict_merge default_commands value)
       | None => commands DEFAULT_CONFIG
       end;
     mic_device :=
       match mic_device user_config with
       | Some v => Some v
       | None => mic_device DEFAULT_CONFIG
       end |}.

(** [load_config()]: the configuration returned and, on the first run,
    the configuration handed to [save_config]. *)
Definition load_config (file : config_file) : Config * option Config :=
  match file with
  | Missing => (DEFAULT_CONFIG, Some DEFAULT_CONFIG)
  | Unreadable => (DEFAULT_CONFIG, None)
  | Parsed user_config => (merge_user user_config, None)
  end.

End ConfigFile.

Import ConfigFile.

(** The same function over everything a file can hold.  [ConfigFile]
    above is its restriction to files whose values have the types of the
    defaults; [load_config_typed] below states the agreement. *)
Module ConfigJson.

(** A value as [json.load] returns it.  Integers are kept by sign and
    magnitude, other numbers by their literal. *)
#[warnings="-register-all"]
Inductive json :=
| JNull
| JBool (b : bool)
| JInt (negative : bool) (n : nat)
| JFloat (literal : str)
| JString (s : str)
| JArray (items : list json)
| JObject (members : list (str * json)).

(** [type(v).__name__] *)
Definition type_name (v : json) : str :=
  match v with
  | JNull => py "NoneType"
  | JBool _ => py "bool"
  | JInt _ _ => py "int"
  | JFloat _ => py "float"
  | JString _ => py "str"
  | JArray _ => py "list"
  | JObject _ => py "dict"
  end.

(** [DEFAULT_CONFIG], all six keys. *)
Definition DEFAULT_CONFIG_json : list (str * json) :=
  [ (py "wake_word_enabled", JBool true);
    (py "wake_word", JString (py "hey music"));
    (py "commands",
       JObject
         [ (py "next", JArray [JString (py "next"); JString (py "skip")]);
           (py "back", JArray [JString (py "back"); JString (py "previous")]);
           (py "pause", JArray [JString (py "pause"); JString (py "stop")]);
           (py "play", JArray [JString (py "play"); JString (py "resume")]) ]);
    (py "mic_device", JNull);
    (py "sensitivity", JFloat (py "0.5"));
    (py "auto_start", JBool false) ].

(** [DEFAULT_CONFIG["commands"]] *)
Definition default_commands_json : list (str * json) :=
  match dict_get DEFAULT_CONFIG_json (py "commands") with
  | Some (JObject members) => members
  | _ => []
  end.

(** What is found at [CONFIG_PATH]: no file; a file that cannot be opened
    or read ([IOError]); bytes that are not UTF-8 ([UnicodeDecodeError],
    which [load_config] does not catch); text that is not JSON
    ([JSONDecodeError]); or a JSON value. *)
Inductive file_state :=
| NoFile
| OpenFails
| NotUtf8 (e : exn)
| NotJson
| Json (value : json).

(** The body of the loop [for key, value in user_config.items()]. *)
Definition merge_entry (config : list (str * json)) (item : str * json)
  : list (str * json) :=
  let (key, value) := item in
  match value with
  | JObject members =>
      if str_eqb key (py "commands")
      then dict_set config (py "commands")
                    (JObject (dict_merge default_commands_json members))
      else dict_set config key value
  | _ => dict_set config key value
  end.

(** [load_config()]: what it returns or raises, and what it hands to
    [save_config] on the first run.  [user_config.items()] on a value
    that is not a dict raises [AttributeError]. *)
Definition load_config_json (file : file_state)
  : result (list (str * json)) * option (list (str * json)) :=
  match file with
  | NoFile => (Return DEFAULT_CONFIG_json, Some DEFAULT_CONFIG_json)
  | OpenFails => (Return DEFAULT_CONFIG_json, None)
  | NotJson => (Return DEFAULT_CONFIG_json, None)
  | NotUtf8 e => (Raise e, None)
  | Json (JObject user_config) =>
      (Return (fold_left merge_entry user_config DEFAULT_CONFIG_json), None)
  | Json value =>
      (Raise (Exception (py "'" ++ type_name value
                         ++ py "' object has no attribute 'items'")), None)
  end.

(** A typed configuration written as a JSON object, and read back. *)
Definition json_triggers (triggers : list str) : json :=
  JArray (map JString triggers).

Definition json_commands (cmds : list (str * list str)) : list (str * json) :=
  map (fun entry => (fst entry, json_triggers (snd entry))) cmds.

Definition encode (config : Config) : list (str * json) :=
  match wake_word_enabled config with
  | Some b => [(py "wake_word_enabled", JBool b)]
  | None => []
  end ++
  match wake_word config with
  | Some w => [(py "wake_word", JString w)]
  | None => []
  end ++
  match commands config with
  | Some cmds => [(py "commands", JObject (json_commands cmds))]
  | None => []
  end ++
  match mic_device config with
  | Some d => [(py "mic_device", JInt false d)]
  | None => []
  end.

Fixpoint decode_triggers (items : list json) : option (list str) :=
  match items with
  | [] => Some []
  | JString s :: rest =>
      match decode_triggers rest with
      | Some triggers => Some (s :: triggers)
      | None => None
      end
  | _ => None
  end.

Fixpoint decode_commands (members : list (str * json))
  : option (list (str * list str)) :=
  match members with
  | [] => Some []
  | (k, JArray items) :: rest =>
      match decode_triggers items, decode_commands rest with
      | Some triggers, Some cmds => Some ((k, triggers) :: cmds)
      | _, _ => None
      end
  | _ => None
  end.

(** The typed reading of a configuration dict: [None] when one of the
    four values is not of the type the listener expects. *)
Definition decode (config : list (str * json)) : option Config :=
  match dict_get config (py "wake_word_enabled"),
        dict_get config (py "wake_word"),
        dict_get config (py "commands"),
        dict_get config (py "mic_device") with
  | Some (JBool b), Some (JString w), Some (JObject members), Some device =>
      match decode_commands members, device with
      | Some cmds, JNull =>
          Some (mkConfig (Some b) (Some w) (Some cmds) None)
      | Some cmds, JInt false d =>
          Some (mkConfig (Some b) (Some w) (Some cmds) (Some d))
      | _, _ => None
      end
  | _, _, _, _ => None
  end.

End ConfigJson.

Import ConfigJson.

(* ===================================================================== *)
(** ** settings.py: what the dialog reads and writes *)
(* ===================================================================== *)

Module Settings.

Definition comma : ascii := ","%char.

(** [s.split(sep)] for a separator of one character. *)
Fixpoint str_split (sep : ascii) (s : str) : list str :=
  match s with
  | [] => [[]]
  | c :: s' =>
      if Ascii.eqb c sep then [] :: str_split sep s'
      else
        match str_split sep s' with
        | [] => [[c]]
        | piece :: pieces => (c :: piece) :: pieces
        end
  end.

(** [sep.join(l)] *)
Fixpoint str_join (sep : str) (l : list str) : str :=
  match l with
  | [] => []
  | [x] => x
  | x :: rest => x ++ sep ++ str_join sep rest
  end.

(** The entry text of [_load_values]: [", ".join(triggers)]. *)
Definition show_triggers (triggers : list str) : str :=
  str_join (py ", ") triggers.

(** The triggers [_on_save] reads from an entry, lines 276-281. *)
Definition parse_triggers (entry_text : str) : list str :=
  let text := str_strip entry_text in
  if truthy text then
    flat_map (fun t => if truthy (str_strip t) then [str_strip t] else [])
             (str_split comma text)
  else [].

(** The position [_load_values] selects in the device box, lines 247-257:
    0 is "Default", [i + 1] the [i]-th microphone. *)
Fixpoint find_mic (i : nat) (mics : list (nat * str)) (mic_device : nat) : nat :=
  match mics with
  | [] => 0
  | (index, _) :: rest =>
      if index =? mic_device then i + 1 else find_mic (S i) rest mic_device
  end.

Definition combo_position (mic_device : option nat) (mics : list (nat * str))
  : nat :=
  match mic_device with
  | None => 0
  | Some d => find_mic 0 mics d
  end.

(** The [mic_device] that [_on_save] stores for the selected position,
    lines 284-286. *)
Definition saved_mic_device (mic_index : nat) (mics : list (nat * str))
  : option nat :=
  if (0 <? mic_index) && (mic_index <=? List.length mics)
  then option_map fst (nth_error mics (mic_index - 1))
  else None.

End Settings.

Import Settings.

(* ===================================================================== *)
(** ** main.py: the tray callbacks that drive the listener *)
(* ===================================================================== *)

(** [VoiceMediaController._on_toggle_pause] *)
Definition _on_toggle_pause : M unit :=
  paused <- is_paused ;;
  if paused then resume else pause.

(* ===================================================================== *)
(** ** Vocabulary for the properties of the listener *)
(* ===================================================================== *)

(** Events of a dispatch: key events and the command notification. *)
Definition is_dispatch_event (ev : event) : bool :=
  match ev with
  | KeyDown _ | KeyUp _ | OnCommand _ => true
  | _ => false
  end.

(** The listener is up: the worker lives, the flag is set, nothing is
    paused and the engine is there. *)
Definition listening (w : World) : Prop :=
  worker_alive w = true /\ _running (self w) = true /\
  _paused (self w) = false /\ recognizer (self w) = Some Recognizer.

(** The engine answers without raising. *)
Definition answers (a : feed_result) : bool :=
  match a with FeedError _ => false | _ => true end.

(** Capture callbacks and worker passes whose engine calls all return. *)
Definition streaming (a : action) : bool :=
  match a with
  | Capture _ => true
  | Worker answer => answers answer
  | _ => false
  end.

(** The buffers the capture callback delivered in an interleaving. *)
Definition captured (acts : list action) : list frame :=
  flat_map (fun a => match a with Capture d => [d] | _ => [] end) acts.

(** What holds of every world a session can reach: a running listener has
    its model, recognizer, stream and thread, and a live worker has its
    thread handle. *)
Definition consistent (w : World) : Prop :=
  (_running (self w) = true ->
   model (self w) = Some VoskModel /\ recognizer (self w) = Some Recognizer /\
   stream (self w) = Some Stream /\ _thread (self w) = Some WorkerThread) /\
  (worker_alive w = true -> _thread (self w) = Some WorkerThread).

(** A configuration that keeps to the four action names. *)
Definition closed_config (config : Config) : Prop :=
  forall a triggers,
    In (a, triggers) (get_commands config) ->
    In a [py "next"; py "back"; py "pause"; py "play"].

(** A trigger as the settings dialog stores it: not empty, no blank at
    either end, no comma. *)
Definition clean_trigger (t : str) : Prop :=
  t <> [] /\ str_strip t = t /\ ~ In comma t.

(** The first entry of the commands mapping has an empty trigger. *)
Definition config_empty_trigger : Config :=
  {| wake_word_enabled := Some true;
     wake_word := Some (py "hey music");
     commands := Some [ (py "pause", [py "stop"; []]); (py "next", [py "next"]) ];
     mic_device := None |}.

(** The events [start] can add to the trace. *)
Definition is_start_event (ev : event) : bool :=
  match ev with
  | StreamOpened _ | StreamStarted | ThreadStarted | OnError _ | OnStatus _ => true
  | _ => false
  end.

(** The listener object after a [start] that went through. *)
Definition started (l : VoiceListener) : VoiceListener :=
  set_thread (Some WorkerThread)
    (set_paused false
       (set_running true
          (set_stream (Some Stream)
             (set_recognizer (Some Recognizer)
                (set_model (Some VoskModel) l))))).

(** Model and engine load, and then the stream cannot be opened. *)
Definition env_mic_taken : Env :=
  {| model_path := py "model"; path_exists := true;
     Model_new := Returns; KaldiRecognizer_new := Returns;
     RawInputStream_new := fun _ => Raises (Exception (py "device busy"));
     stream_start := Returns; stream_stop := Returns; stream_close := Returns;
     keyboard_press := fun _ => Returns;
     keyboard_release := fun _ => Returns |}.

(** A configuration file that renames the triggers of [next] and adds an
    action of its own, listed before a default one. *)
Definition user_file : Config :=
  {| wake_word_enabled := None;
     wake_word := Some (py "computer");
     commands := Some [ (py "louder", [py "volume up"]);
                        (py "next", [py "forward"]) ];
     mic_device := None |}.






(* ===================================================================== *)
(** * Properties *)
(* ===================================================================== *)

(** ** Substring search and replacement *)

Section StrFacts.

Variables old new : str.

Lemma startswith_nil_r (w : str) : startswith w [] = true -> w = [].
Proof. destruct w; [reflexivity | discriminate]. Qed.

Lemma str_find_none (s : str) : str_find old s = None <-> str_in old s = false.
Proof.
  induction s as [|c s IH]; simpl.
  - destruct (startswith old []); split; congruence.
  - destruct (startswith old (c :: s)); simpl.
    + split; discriminate.
    + rewrite <- IH. destruct (str_find old s); simpl; split; congruence.
Qed.

Lemma str_find_some (s : str) :
  str_in old s = true -> exists i, str_find old s = Some i.
Proof.
  intros H. destruct (str_find old s) as [i|] eqn:E; [now exists i|].
  apply str_find_none in E. congruence.
Qed.

(** Passing over [k] characters is dropping them. *)
Lemma replace_scan_skip (k : nat) (s : str) :
  replace_scan old new k s = replace_scan old new 0 (skipn k s).
Proof.
  revert k. induction s as [|c s IH]; intros [|k]; try reflexivity.
  simpl skipn. rewrite <- IH. reflexivity.
Qed.

(** The scan cuts at the first occurrence and starts again behind it. *)
Lemma replace_scan_find (s : str) :
  old <> [] ->
  replace_scan old new 0 s =
    match str_find old s with
    | None => s
    | Some i =>
        firstn i s ++ new ++ replace_scan old new 0 (skipn (i + List.length old) s)
    end.
Proof.
  intros Hold. induction s as [|c s IH].
  - simpl. destruct (startswith old []) eqn:E; [|reflexivity].
    apply startswith_nil_r in E. contradiction.
  - cbn [replace_scan str_find].
    destruct (startswith old (c :: s)) eqn:E.
    + rewrite replace_scan_skip. simpl firstn. simpl app at 1.
      destruct old as [|a o]; [contradiction|].
      replace (List.length (a :: o) - 1) with (List.length o) by (simpl; lia).
      reflexivity.
    + rewrite IH. destruct (str_find old s) as [i|]; simpl; reflexivity.
Qed.

Lemma flat_map_singleton (s : str) : flat_map (fun c => [c]) s = s.
Proof. induction s as [|c s IH]; simpl; congruence. Qed.

End StrFacts.

(** [s.replace(w, "")] removes the first occurrence of [w] and then
    replaces again in what follows it. *)
Lemma str_replace_first (w s : str) (i : nat) :
  str_find w s = Some i ->
  str_replace w [] s =
    firstn i s ++ str_replace w [] (skipn (i + List.length w) s).
Proof.
  intros Hf. destruct w as [|a w].
  - unfold str_replace. simpl. rewrite !flat_map_singleton.
    destruct s; simpl in Hf; injection Hf as <-; reflexivity.
  - unfold str_replace. rewrite replace_scan_find by discriminate.
    rewrite Hf. reflexivity.
Qed.

(** Without an occurrence [s.replace(w, x)] is [s]. *)
Lemma str_replace_absent (w x s : str) :
  str_in w s = false -> str_replace w x s = s.
Proof.
  intros H. destruct w as [|a w].
  - destruct s; discriminate.
  - unfold str_replace. rewrite replace_scan_find by discriminate.
    apply str_find_none in H. rewrite H. reflexivity.
Qed.

Lemma truthy_false (s : str) : truthy s = false <-> s = [].
Proof. destruct s; simpl; split; congruence. Qed.

(** ** The trigger loops *)

Lemma match_triggers_true (text : str) (triggers : list str) :
  match_triggers text triggers = true <->
  exists trigger, In trigger triggers /\ str_in (str_lower trigger) text = true.
Proof.
  induction triggers as [|t ts IH]; simpl.
  - split; [discriminate | intros (? & [] & _)].
  - destruct (str_in (str_lower t) text) eqn:E.
    + split; [intros _; exists t; auto | reflexivity].
    + rewrite IH. split.
      * intros (x & Hin & Hx). exists x; auto.
      * intros (x & [<- | Hin] & Hx); [congruence | exists x; auto].
Qed.

Lemma match_triggers_false (text : str) (triggers : list str) :
  match_triggers text triggers = false <->
  forall trigger, In trigger triggers -> str_in (str_lower trigger) text = false.
Proof.
  split.
  - intros H t Hin. destruct (str_in (str_lower t) text) eqn:E; [|reflexivity].
    assert (match_triggers text triggers = true)
      by (apply match_triggers_true; exists t; auto).
    congruence.
  - intros H. destruct (match_triggers text triggers) eqn:E; [|reflexivity].
    apply match_triggers_true in E. destruct E as (t & Hin & Ht).
    rewrite (H t Hin) in Ht. discriminate.
Qed.

(** The outer loop returns the first entry, in declaration order, one of
    whose triggers occurs in the text. *)
Lemma match_commands_some (text : str) (items : list (str * list str)) (a : str) :
  match_commands text items = Some a <->
  exists before triggers after,
    items = before ++ (a, triggers) :: after /\
    Forall (fun entry => match_triggers text (snd entry) = false) before /\
    match_triggers text triggers = true.
Proof.
  induction items as [|[a0 ts0] items IH]; simpl.
  - split; [discriminate|].
    intros (b & ts & af & H & _). destruct b; discriminate.
  - destruct (match_triggers text ts0) eqn:E.
    + split.
      * intros [= <-]. exists [], ts0, items. auto.
      * intros (b & ts & af & H & Hb & Ht). destruct b as [|e b].
        -- simpl in H. congruence.
        -- simpl in H. injection H as <- _. inversion Hb; subst.
           simpl in *. congruence.
    + rewrite IH. split.
      * intros (b & ts & af & H & Hb & Ht).
        exists ((a0, ts0) :: b), ts, af. subst. auto.
      * intros (b & ts & af & H & Hb & Ht). destruct b as [|e b].
        -- simpl in H. injection H as <- <- _. congruence.
        -- simpl in H. injection H as <- ->. inversion Hb; subst.
           exists b, ts, af. auto.
Qed.

Lemma match_commands_none (text : str) (items : list (str * list str)) :
  match_commands text items = None <->
  forall a triggers trigger,
    In (a, triggers) items -> In trigger triggers ->
    str_in (str_lower trigger) text = false.
Proof.
  induction items as [|[a0 ts0] items IH]; simpl.
  - split; [intros _ ? ? ? [] | reflexivity].
  - destruct (match_triggers text ts0) eqn:E.
    + split; [discriminate|]. intros H.
      apply match_triggers_true in E. destruct E as (t & Hin & Ht).
      rewrite (H a0 ts0 t) in Ht; auto. discriminate.
    + rewrite IH. split.
      * intros H a ts t [[= <- <-] | Hin] Ht.
        -- eapply match_triggers_false; eauto.
        -- eauto.
      * intros H a ts t Hin Ht. eauto.
Qed.

(** Past the gate [match_command] is the two loops over the remaining text. *)
Lemma match_command_passed (text : str) (config : Config) :
  passes_gate text config = true ->
  match_command text config =
    match_commands (remaining_text text config) (get_commands config).
Proof.
  unfold passes_gate, match_command, remaining_text.
  destruct (truthy (str_strip (str_lower text))); simpl; [|discriminate].
  destruct (get_wake_word_enabled config); simpl; [|reflexivity].
  intros ->. reflexivity.
Qed.

(** ** The command matcher *)

(** C1, as stated, fails.  With the wake word spoken twice the code cuts
    out both occurrences: it searches "next" and answers [next], where
    the text without the first occurrence only, "hey music next", still
    holds the wake word and would answer [pause].  And the gate looks at
    the trimmed text: "next hey music " holds the wake word "hey music "
    before trimming but not after it, so nothing is searched. *)
Lemma wake_word_first_only_counterexample :
  (get_wake_word_enabled config_twice = true /\
   str_in (str_lower (get_wake_word config_twice))
          (str_lower (py "hey music hey music next")) = true /\
   match_command (py "hey music hey music next") config_twice = Some (py "next") /\
   remaining_text (py "hey music hey music next") config_twice = py "next" /\
   str_strip (remove_first (py "hey music") (py "hey music hey music next"))
     = py "hey music next" /\
   match_commands (py "hey music next") (get_commands config_twice)
     = Some (py "pause")) /\
  (get_wake_word_enabled config_blank = true /\
   str_in (str_lower (get_wake_word config_blank))
          (str_lower (py "next hey music ")) = true /\
   match_command (py "next hey music ") config_blank = None /\
   match_commands
     (str_strip (remove_first (py "hey music ") (str_lower (py "next hey music "))))
     (get_commands config_blank) = Some (py "next")).
Proof. vm_compute. repeat split; reflexivity. Qed.

(** C1 (amended).  With the wake word enabled and present in the
    lowercased, trimmed, non-empty text, the triggers are searched in the
    trimmed text that [replace] leaves: what precedes the first occurrence
    of the wake word, followed by what follows it with every further
    occurrence cut out in the same way.  When no occurrence follows the
    first, this is the text with the first occurrence removed. *)
Theorem match_command_cuts_every_wake_word (text : str) (config : Config) :
  get_wake_word_enabled config = true ->
  str_strip (str_lower text) <> [] ->
  str_in (str_lower (get_wake_word config)) (str_strip (str_lower text)) = true ->
  exists i,
    str_find (str_lower (get_wake_word config)) (str_strip (str_lower text))
      = Some i /\
    match_command text config =
      match_commands
        (str_strip
           (firstn i (str_strip (str_lower text)) ++
            str_replace (str_lower (get_wake_word config)) []
              (skipn (i + List.length (str_lower (get_wake_word config)))
                     (str_strip (str_lower text)))))
        (get_commands config) /\
    (str_in (str_lower (get_wake_word config))
            (skipn (i + List.length (str_lower (get_wake_word config)))
                   (str_strip (str_lower text))) = false ->
     match_command text config =
       match_commands
         (str_strip (remove_first (str_lower (get_wake_word config))
                                  (str_strip (str_lower text))))
         (get_commands config)).
Proof.
  intros Hen Hne Hin.
  set (w := str_lower (get_wake_word config)) in *.
  set (t := str_strip (str_lower text)) in *.
  destruct (str_find_some w t Hin) as [i Hi].
  assert (Hm : match_command text config =
               match_commands (str_strip (str_replace w [] t)) (get_commands config)).
  { unfold match_command. fold t. fold w. rewrite Hen, Hin.
    destruct t; [contradiction | reflexivity]. }
  exists i. split; [exact Hi|]. split.
  - rewrite Hm, (str_replace_first w t Hi). reflexivity.
  - intros Hrest. rewrite Hm, (str_replace_first w t Hi).
    rewrite (str_replace_absent w [] _ Hrest).
    unfold remove_first. rewrite Hi. reflexivity.
Qed.

Lemma match_command_cuts_every_wake_word_witness :
  exists i,
    str_find (py "hey music") (py "hey music hey music next") = Some i /\
    match_command (py "hey music hey music next") config_twice =
      match_commands
        (str_strip
           (firstn i (py "hey music hey music next") ++
            str_replace (py "hey music") []
              (skipn (i + 9) (py "hey music hey music next"))))
        (get_commands config_twice) /\
    (str_in (py "hey music") (skipn (i + 9) (py "hey music hey music next"))
       = false ->
     match_command (py "hey music hey music next") config_twice =
       match_commands
         (str_strip (remove_first (py "hey music") (py "hey music hey music next")))
         (get_commands config_twice)).
Proof.
  apply (match_command_cuts_every_wake_word
           (py "hey music hey music next") config_twice).
  - reflexivity.
  - discriminate.
  - reflexivity.
Defined.

(** C3.  For a text that passes the gate, [match_command] returns action
    [a] exactly when [a] is the first entry of the commands mapping, in
    declaration order, that has a trigger whose lowercased form is a
    substring of the remaining text (wherever in the text it stands, and
    whether or not it is a whole word); it returns no match exactly when
    no trigger of any entry is such a substring. *)
Theorem match_command_first_declared_wins (text : str) (config : Config) :
  passes_gate text config = true ->
  (forall a,
     match_command text config = Some a <->
     exists before triggers after,
       get_commands config = before ++ (a, triggers) :: after /\
       (forall a' triggers' trigger,
          In (a', triggers') before -> In trigger triggers' ->
          str_in (str_lower trigger) (remaining_text text config) = false) /\
       (exists trigger,
          In trigger triggers /\
          str_in (str_lower trigger) (remaining_text text config) = true)) /\
  (match_command text config = None <->
   forall a triggers trigger,
     In (a, triggers) (get_commands config) -> In trigger triggers ->
     str_in (str_lower trigger) (remaining_text text config) = false).
Proof.
  intros Hgate. rewrite (match_command_passed _ _ Hgate). split.
  - intros a. rewrite match_commands_some. split.
    + intros (b & ts & af & Heq & Hb & Ht). exists b, ts, af.
      split; [exact Heq|]. split.
      * intros a' ts' t Hin Hint. rewrite Forall_forall in Hb.
        specialize (Hb _ Hin). simpl in Hb.
        eapply match_triggers_false; eauto.
      * now apply match_triggers_true.
    + intros (b & ts & af & Heq & Hb & Ht). exists b, ts, af.
      split; [exact Heq|]. split.
      * apply Forall_forall. intros [a' ts'] Hin. simpl.
        apply match_triggers_false. intros t Hint. eauto.
      * now apply match_triggers_true.
  - apply match_commands_none.
Qed.

Lemma match_command_first_declared_wins_witness :
  passes_gate (py "next and then back") config_back_next = true /\
  match_command (py "next and then back") config_back_next = Some (py "back") /\
  match_command (py "Hey Music replay the song") DEFAULT_CONFIG = Some (py "play").
Proof.
  split; [reflexivity|]. split.
  - apply (match_command_first_declared_wins
             (py "next and then back") config_back_next); [reflexivity|].
    exists [], [py "back"], [(py "next", [py "next"])].
    split; [reflexivity|]. split.
    + intros ? ? ? [].
    + exists (py "back"). split; [left; reflexivity | reflexivity].
  - apply (match_command_first_declared_wins
             (py "Hey Music replay the song") DEFAULT_CONFIG); [reflexivity|].
    exists [ (py "next", [py "next"; py "skip"]);
             (py "back", [py "back"; py "previous"]);
             (py "pause", [py "pause"; py "stop"]) ],
           [py "play"; py "resume"], [].
    split; [reflexivity|]. split.
    + intros a' ts t Hin Hint. simpl in Hin.
      repeat (destruct Hin as [Hin | Hin];
              [injection Hin as <- <-; simpl in Hint;
               repeat (destruct Hint as [<- | Hint]; [reflexivity|]);
               contradiction|]).
      contradiction.
    + exists (py "play"). split; [left; reflexivity | reflexivity].
Defined.

(** C4.  With the wake word enabled, a text whose lowercased, trimmed form
    does not contain the lowercased wake word gets no action; and a text
    that is empty after lowercasing and trimming gets no action, whatever
    the configuration. *)
Theorem match_command_gate_closed (text : str) (config : Config) :
  (get_wake_word_enabled config = true /\
   str_in (str_lower (get_wake_word config)) (str_strip (str_lower text)) = false)
  \/ str_strip (str_lower text) = [] ->
  match_command text config = None.
Proof.
  unfold match_command. intros [[Hen Hin] | Hempty].
  - rewrite Hen, Hin. simpl.
    destruct (negb (truthy (str_strip (str_lower text)))); reflexivity.
  - rewrite Hempty. reflexivity.
Qed.

Lemma match_command_gate_closed_witness :
  match_command (py "next please") DEFAULT_CONFIG = None /\
  match_command (py "   ") config_back_next = None.
Proof.
  split.
  - apply (match_command_gate_closed (py "next please") DEFAULT_CONFIG).
    left. split; reflexivity.
  - apply (match_command_gate_closed (py "   ") config_back_next).
    right. reflexivity.
Defined.

(** ** The key dispatcher *)

Lemma add_events_nil (w : World) : add_events [] w = w.
Proof. destruct w. unfold add_events. simpl. rewrite app_nil_r. reflexivity. Qed.

Lemma str_eqb_eq (a b : str) : str_eqb a b = true <-> a = b.
Proof. unfold str_eqb. destruct (list_eq_dec ascii_dec a b); split; congruence. Qed.

(** The four names of [MEDIA_KEYS] are the only keys the lookup knows. *)
Lemma dict_get_MEDIA_KEYS (action : str) (key : Key) :
  dict_get MEDIA_KEYS action = Some key ->
  In action [py "next"; py "back"; py "pause"; py "play"].
Proof.
  unfold MEDIA_KEYS. cbn [dict_get].
  repeat match goal with
  | |- context [str_eqb ?k action] =>
      let E := fresh "E" in
      destruct (str_eqb k action) eqn:E;
      [apply str_eqb_eq in E; subst action; simpl; tauto|]
  end.
  discriminate.
Qed.

(** C5.  [next] is sent as the next-track key, [back] as the
    previous-track key, [pause] and [play] both as the play/pause key.
    For each of them the dispatcher sends key-down and then key-up and
    returns true when both calls go through; when the key-down call fails
    it has sent nothing, when the key-up call fails it has sent the
    key-down only, and in both cases it returns false and raises nothing. *)
Theorem send_media_key_dispatch (env : Env) (w : World) :
  dict_get MEDIA_KEYS (py "next") = Some media_next /\
  dict_get MEDIA_KEYS (py "back") = Some media_previous /\
  dict_get MEDIA_KEYS (py "pause") = Some media_play_pause /\
  dict_get MEDIA_KEYS (py "play") = Some media_play_pause /\
  forall action key,
    dict_get MEDIA_KEYS action = Some key ->
    send_media_key env action w =
      match keyboard_press env key, keyboard_release env key with
      | Returns, Returns => (Return true, add_events [KeyDown key; KeyUp key] w)
      | Returns, Raises _ => (Return false, add_events [KeyDown key] w)
      | Raises _, _ => (Return false, w)
      end.
Proof.
  repeat (split; [reflexivity|]).
  intros action key Hkey. unfold send_media_key. rewrite Hkey.
  unfold try_except, bind, extern, emit, raise, ret, add_events.
  destruct (keyboard_press env key); [|reflexivity].
  destruct (keyboard_release env key); simpl; [|reflexivity].
  rewrite <- app_assoc. reflexivity.
Qed.

Lemma send_media_key_dispatch_witness :
  send_media_key env_ok (py "pause") (world0 listener0)
    = (Return true,
       add_events [KeyDown media_play_pause; KeyUp media_play_pause]
                  (world0 listener0)) /\
  send_media_key env_no_keyboard (py "next") (world0 listener0)
    = (Return false, world0 listener0).
Proof.
  split.
  - destruct (send_media_key_dispatch env_ok (world0 listener0))
      as (_ & _ & _ & _ & H).
    exact (H (py "pause") media_play_pause eq_refl).
  - destruct (send_media_key_dispatch env_no_keyboard (world0 listener0))
      as (_ & _ & _ & _ & H).
    exact (H (py "next") media_next eq_refl).
Defined.

(** C10.  An action name outside next, back, pause and play is answered
    with false and no key event.  The matcher returns any key of the
    commands mapping, so such a name can reach the dispatcher; handling
    the recognised text then returns normally, sends no key event and
    only notifies [on_command] (for a non-empty name). *)
Theorem unknown_action_dropped (env : Env) (action : str) (w : World) :
  ~ In action [py "next"; py "back"; py "pause"; py "play"] ->
  send_media_key env action w = (Return false, w) /\
  match_command (py "louder") (config_single action) = Some action /\
  forall text,
    match_command text (config (self w)) = Some action ->
    _handle_recognition env text w =
      (Return tt,
       add_events (if truthy action
                   then callback_events (on_command (self w)) (OnCommand action)
                   else []) w).
Proof.
  intros Hout.
  assert (Hget : dict_get MEDIA_KEYS action = None).
  { destruct (dict_get MEDIA_KEYS action) as [key|] eqn:E; [|reflexivity].
    apply dict_get_MEDIA_KEYS in E. contradiction. }
  assert (Hsend : send_media_key env action w = (Return false, w)).
  { unfold send_media_key. rewrite Hget. reflexivity. }
  split; [exact Hsend|]. split; [reflexivity|].
  intros text Hm. unfold _handle_recognition, bind, get_self. rewrite Hm.
  destruct (truthy action).
  - rewrite Hsend. unfold call, callback_events.
    destruct (on_command (self w)); [reflexivity|].
    unfold ret. rewrite add_events_nil. reflexivity.
  - unfold ret. rewrite add_events_nil. reflexivity.
Qed.

Lemma unknown_action_dropped_witness :
  send_media_key env_ok (py "volume_up") (world0 listener0)
    = (Return false, world0 listener0) /\
  match_command (py "louder") (config_single (py "volume_up"))
    = Some (py "volume_up") /\
  _handle_recognition env_ok (py "louder")
      (world0 (set_config (config_single (py "volume_up")) listener0))
    = (Return tt,
       add_events [OnCommand (py "volume_up")]
         (world0 (set_config (config_single (py "volume_up")) listener0))).
Proof.
  assert (Hout : ~ In (py "volume_up") [py "next"; py "back"; py "pause"; py "play"]).
  { simpl. intros [H | [H | [H | [H | []]]]]; discriminate H. }
  destruct (unknown_action_dropped env_ok
              (world0 (set_config (config_single (py "volume_up")) listener0))
              Hout) as (_ & Hmatch & Hhandle).
  split; [|split].
  - apply (unknown_action_dropped env_ok (world0 listener0) Hout).
  - exact Hmatch.
  - exact (Hhandle (py "louder") eq_refl).
Defined.

(** ** The listener *)

(** Unfolds the monad down to worlds. *)
Ltac run_monad :=
  unfold exec, eval, bind, try_except, extern, call, emit, raise, ret,
    get_self, is_alive, modify_self, set_alive in *;
  simpl in *.

(** C6.  From a listener that is not running: when the model directory,
    the engine, the opening of the stream and its start all go through,
    [start] raises the running flag, starts the worker thread, reports
    "listening" through the status callback and returns true.  When any
    of them fails, it returns false, the running flag stays false, no
    thread is started, and the only callback it makes is [on_error], once,
    with the failure. *)
Theorem start_outcome (env : Env) (w : World) :
  _running (self w) = false ->
  if startup_ok env (mic_device (config (self w))) then
    eval (start env) w = Return true /\
    _running (self (exec (start env) w)) = true /\
    _paused (self (exec (start env) w)) = false /\
    _thread (self (exec (start env) w)) = Some WorkerThread /\
    worker_alive (exec (start env) w) = true /\
    trace (exec (start env) w) =
      trace w ++
      [StreamOpened (mic_device (config (self w))); StreamStarted; ThreadStarted] ++
      callback_events (on_status (self w)) (OnStatus (py "listening"))
  else
    eval (start env) w = Return false /\
    _running (self (exec (start env) w)) = false /\
    _paused (self (exec (start env) w)) = _paused (self w) /\
    _thread (self (exec (start env) w)) = _thread (self w) /\
    worker_alive (exec (start env) w) = worker_alive w /\
    exists opened msg,
      (opened = [] \/ opened = [StreamOpened (mic_device (config (self w)))]) /\
      trace (exec (start env) w) =
        trace w ++ opened ++ callback_events (on_error (self w)) (OnError msg).
Proof.
  intros Hrun. destruct w as [l alive tr].
  destruct l as [cfg oc oe os m r s q running paused t].
  simpl in Hrun. subst running.
  destruct env as [mp pe mn kn rn ss st sc kp kr].
  unfold startup_ok, start, _load_model. run_monad.
  destruct oe, os, pe, mn as [|e1], kn as [|e2]; simpl;
    try (destruct (rn (mic_device cfg)) as [|e3]; simpl);
    try (destruct ss as [|e4]; simpl);
    repeat (split; [reflexivity|]);
    first
      [ rewrite <- ?app_assoc; reflexivity
      | exists []; eexists; split; [left; reflexivity|];
        simpl; reflexivity
      | exists [StreamOpened (mic_device cfg)]; eexists;
        split; [right; reflexivity|];
        rewrite <- ?app_assoc; simpl; reflexivity
      | exists [], []; split; [left; reflexivity|];
        simpl; rewrite ?app_nil_r; reflexivity
      | exists [StreamOpened (mic_device cfg)], [];
        split; [right; reflexivity|];
        simpl; rewrite ?app_nil_r; reflexivity ].
Qed.

Lemma start_outcome_witness :
  (eval (start env_ok) (world0 listener0) = Return true /\
   _running (self (exec (start env_ok) (world0 listener0))) = true /\
   trace (exec (start env_ok) (world0 listener0)) =
     [StreamOpened None; StreamStarted; ThreadStarted; OnStatus (py "listening")]) /\
  (eval (start env_no_mic) (world0 listener0) = Return false /\
   _running (self (exec (start env_no_mic) (world0 listener0))) = false /\
   worker_alive (exec (start env_no_mic) (world0 listener0)) = false /\
   trace (exec (start env_no_mic) (world0 listener0)) =
     [OnError (py "Failed to open microphone: no device")]).
Proof.
  pose proof (start_outcome env_ok (world0 listener0) eq_refl) as Hok.
  pose proof (start_outcome env_no_mic (world0 listener0) eq_refl) as Hno.
  change (startup_ok env_ok (mic_device (config (self (world0 listener0)))))
    with true in Hok.
  change (startup_ok env_no_mic (mic_device (config (self (world0 listener0)))))
    with false in Hno.
  destruct Hok as (Hr & Hrun & _ & _ & _ & Htr).
  destruct Hno as (Hr' & Hrun' & _ & _ & Hal' & _).
  split.
  - split; [exact Hr|]. split; [exact Hrun | exact Htr].
  - split; [exact Hr'|]. split; [exact Hrun'|]. split; [exact Hal' | reflexivity].
Defined.

Lemma drain_empty (q : list frame) : drain q = [].
Proof. induction q as [|d q IH]; [reflexivity | exact IH]. Qed.

(** The world [stop] leaves behind. *)
Lemma stop_world (env : Env) (w : World) :
  stop env w =
    (Return tt,
     {| self := stopped (self w);
        worker_alive := alive_after_join (_thread (self w)) (worker_alive w);
        trace := trace w ++ device_events env (stream (self w))
                         ++ join_events (_thread (self w)) (worker_alive w) |}).
Proof.
  destruct w as [l alive tr].
  destruct l as [cfg oc oe os m r s q running paused t].
  destruct env as [mp pe mn kn rn ss st sc kp kr].
  unfold stop, device_events, join_events, alive_after_join, stopped.
  run_monad.
  destruct s, st, sc, t, alive; simpl;
    rewrite ?drain_empty, <- ?app_assoc, ?app_nil_r; reflexivity.
Qed.




(** The dispatcher always returns, and only adds key events. *)
Lemma send_media_key_returns (env : Env) (action : str) (w : World) :
  exists b evs, send_media_key env action w = (Return b, add_events evs w).
Proof.
  unfold send_media_key.
  destruct (dict_get MEDIA_KEYS action) as [k|].
  - unfold try_except, bind, extern, emit, raise, ret.
    destruct (keyboard_press env k); [destruct (keyboard_release env k)|].
    + exists true, [KeyDown k; KeyUp k]. unfold add_events. simpl.
      rewrite <- app_assoc. reflexivity.
    + exists false, [KeyDown k]. reflexivity.
    + exists false, []. rewrite add_events_nil. reflexivity.
  - exists false, []. rewrite add_events_nil. reflexivity.
Qed.

(** Handling a recognised text never raises. *)
Lemma handle_recognition_returns (env : Env) (text : str) (w : World) :
  eval (_handle_recognition env text) w = Return tt.
Proof.
  unfold _handle_recognition, eval, bind, get_self.
  destruct (match_command text (config (self w))) as [a|]; [|reflexivity].
  destruct (truthy a); [|reflexivity].
  destruct (send_media_key_returns env a w) as (b & evs & ->).
  unfold call. destruct (on_command (self (add_events evs w))); reflexivity.
Qed.

(** C8.  [reload_config] stores the new configuration and nothing else:
    flags, stream, engine, thread, queue, callbacks, the worker and the
    trace are as before.  A text recognised after it is matched against
    the new configuration, and so is the utterance the worker finalises
    in its next pass, with no [stop] or [start] in between. *)
Theorem reload_config_only_config (env : Env) (new_config : Config) (w : World) :
  reload_config new_config w
    = (Return tt, with_self (set_config new_config (self w)) w) /\
  (let l' := self (exec (reload_config new_config) w) in
   config l' = new_config /\
   _running l' = _running (self w) /\ _paused l' = _paused (self w) /\
   stream l' = stream (self w) /\ recognizer l' = recognizer (self w) /\
   model l' = model (self w) /\ _thread l' = _thread (self w) /\
   audio_queue l' = audio_queue (self w) /\
   on_command l' = on_command (self w) /\ on_error l' = on_error (self w) /\
   on_status l' = on_status (self w)) /\
  worker_alive (exec (reload_config new_config) w) = worker_alive w /\
  trace (exec (reload_config new_config) w) = trace w /\
  (forall text,
     _handle_recognition env text (exec (reload_config new_config) w) =
       match match_command text new_config with
       | Some action =>
           if truthy action
           then (send_media_key env action ;;
                 call (on_command (self w)) (OnCommand action))
                  (exec (reload_config new_config) w)
           else (Return tt, exec (reload_config new_config) w)
       | None => (Return tt, exec (reload_config new_config) w)
       end) /\
  (forall data rest text,
     worker_alive w = true -> _running (self w) = true ->
     _paused (self w) = false -> recognizer (self w) = Some Recognizer ->
     audio_queue (self w) = data :: rest -> truthy text = true ->
     exec (worker_pass env (Final text)) (exec (reload_config new_config) w) =
       exec (_handle_recognition env text)
            (add_events [EngineFed data]
               (with_self (set_queue rest (set_config new_config (self w))) w))).
Proof.
  split; [reflexivity|]. split; [repeat split|].
  split; [reflexivity|]. split; [reflexivity|]. split.
  - intros text. unfold _handle_recognition, reload_config. run_monad.
    destruct (match_command text new_config) as [a|]; [|reflexivity].
    destruct (truthy a); [|reflexivity].
    destruct (send_media_key_returns env a
                (with_self (set_config new_config (self w)) w))
      as (b & evs & Hs).
    unfold with_self in Hs. rewrite Hs. reflexivity.
  - intros data rest text Hal Hrun Hp Hrec Hq Htext.
    pose proof (handle_recognition_returns env text
      (add_events [EngineFed data]
         (with_self (set_queue rest (set_config new_config (self w))) w))) as Hret.
    destruct w as [l alive tr].
    destruct l as [cfg oc oe os m r s q running paused t].
    simpl in Hal, Hrun, Hp, Hrec, Hq. subst.
    unfold worker_pass, _process_audio_pass, reload_config.
    unfold exec, eval, add_events, with_self in *.
    unfold bind, try_except, get_self, is_alive, modify_self, set_alive,
      emit, ret. simpl. rewrite Htext.
    simpl in Hret.
    destruct (_handle_recognition env text _) as [[[]|e] w2]; simpl in *.
    + reflexivity.
    + discriminate.
Qed.

Lemma reload_config_only_config_witness :
  trace (exec (worker_pass env_ok (Final (py "hey music forward")))
              (exec (reload_config config_forward) world_listening))
    = [EngineFed [Byte.x01]; KeyDown media_next; KeyUp media_next;
       OnCommand (py "next")] /\
  trace (exec (worker_pass env_ok (Final (py "hey music forward")))
              world_listening)
    = [EngineFed [Byte.x01]].
Proof.
  destruct (reload_config_only_config env_ok config_forward world_listening)
    as (_ & _ & _ & _ & _ & Hworker).
  split.
  - rewrite (Hworker [Byte.x01] [] (py "hey music forward")
               eq_refl eq_refl eq_refl eq_refl eq_refl eq_refl).
    reflexivity.
  - reflexivity.
Defined.

(** ** Pause *)

Lemma fed_app (tr evs : list event) : fed (tr ++ evs) = fed tr ++ fed evs.
Proof. unfold fed. apply flat_map_app. Qed.

(** While paused the capture callback changes nothing. *)
Lemma audio_callback_paused (indata : frame) (w : World) :
  _paused (self w) = true -> _audio_callback indata w = (Return tt, w).
Proof.
  intros Hp. unfold _audio_callback, bind, get_self. rewrite Hp. reflexivity.
Qed.

(** While paused a pass of the worker feeds nothing: it leaves the world
    alone, takes one frame off the queue, or ends the thread. *)
Lemma worker_pass_paused (env : Env) (answer : feed_result) (w : World) :
  _paused (self w) = true ->
  worker_pass env answer w =
    (Return tt,
     if worker_alive w then
       if _running (self w) then
         match audio_queue (self w) with
         | [] => w
         | _ :: rest => with_self (set_queue rest (self w)) w
         end
       else {| self := self w; worker_alive := false; trace := trace w |}
     else w).
Proof.
  intros Hp. destruct w as [l alive tr].
  destruct l as [cfg oc oe os m r s q running paused t].
  simpl in Hp. subst paused.
  unfold worker_pass, _process_audio_pass, with_self. run_monad.
  destruct alive; [|reflexivity].
  destruct running; [|reflexivity].
  destruct q; reflexivity.
Qed.

(** One action that does not resume keeps the pause: the flag stays set,
    the queue does not grow and the engine is not fed. *)
Lemma step_paused (env : Env) (a : action) (w : World) :
  keeps_pause a = true ->
  _paused (self w) = true ->
  _paused (self (step env a w)) = true /\
  List.length (audio_queue (self (step env a w)))
    <= List.length (audio_queue (self w)) /\
  fed (trace (step env a w)) = fed (trace w).
Proof.
  intros Hk Hp. destruct a; simpl in Hk; try discriminate; unfold step, exec.
  - rewrite (audio_callback_paused indata w Hp). simpl. auto.
  - rewrite (worker_pass_paused env answer w Hp). simpl.
    destruct (worker_alive w); [|auto].
    destruct (_running (self w)); [|auto].
    destruct (audio_queue (self w)) eqn:Hq; simpl; [rewrite Hq; auto|].
    repeat split; auto.
  - rewrite stop_world. simpl. split; [exact Hp|]. split; [lia|].
    rewrite fed_app, fed_app.
    assert (Hd : forall s, fed (device_events env s) = []).
    { intros [ | ]; simpl; [|reflexivity].
      destruct (stream_stop env); [|reflexivity].
      destruct (stream_close env); reflexivity. }
    assert (Hj : forall t b, fed (join_events t b) = []).
    { intros [ | ] [ | ]; reflexivity. }
    rewrite Hd, Hj, app_nil_r. reflexivity.
  - unfold pause. run_monad.
    destruct (on_status (self w)); simpl;
      (split; [reflexivity|]); (split; [lia|]); [|reflexivity].
    rewrite fed_app, app_nil_r. reflexivity.
  - simpl. auto.
Qed.

(** C9.  While the paused flag is set the capture callback drops every
    buffer it is given and leaves the queue as it is, and a worker pass
    that takes a frame off the queue discards it.  Hence over every
    interleaving of capture callbacks, worker passes and calls of stop,
    pause and reload_config (nothing that resumes), the flag stays set,
    the queue never becomes longer and the engine is never fed. *)
Theorem paused_queue_never_grows (env : Env) (acts : list action) (w : World) :
  _paused (self w) = true ->
  forallb keeps_pause acts = true ->
  (forall indata, _audio_callback indata w = (Return tt, w)) /\
  (forall answer data rest,
     worker_alive w = true -> _running (self w) = true ->
     audio_queue (self w) = data :: rest ->
     worker_pass env answer w
       = (Return tt, with_self (set_queue rest (self w)) w)) /\
  _paused (self (run env acts w)) = true /\
  List.length (audio_queue (self (run env acts w)))
    <= List.length (audio_queue (self w)) /\
  fed (trace (run env acts w)) = fed (trace w).
Proof.
  intros Hp Hacts. split; [|split].
  - intros indata. now apply audio_callback_paused.
  - intros answer data rest Hal Hrun Hq.
    rewrite (worker_pass_paused env answer w Hp), Hal, Hrun, Hq. reflexivity.
  - revert w Hp Hacts. unfold run.
    induction acts as [|a acts IH]; intros w Hp Hacts; simpl.
    + auto.
    + simpl in Hacts. apply andb_prop in Hacts. destruct Hacts as [Ha Hacts].
      destruct (step_paused env a w Ha Hp) as (Hp' & Hlen & Hfed).
      destruct (IH (step env a w) Hp' Hacts) as (Hp2 & Hlen2 & Hfed2).
      split; [exact Hp2|]. split; [lia | congruence].
Qed.

Lemma paused_queue_never_grows_witness :
  let w := exec pause world_listening in
  let acts := [Capture [Byte.x02]; Worker (Final (py "hey music next"));
               Capture [Byte.x03]; CallReload config_forward;
               Capture [Byte.x04]] in
  _audio_callback [Byte.x02] w = (Return tt, w) /\
  audio_queue (self (run env_ok acts w)) = [] /\
  _paused (self (run env_ok acts w)) = true /\
  List.length (audio_queue (self (run env_ok acts w))) <= 1 /\
  fed (trace (run env_ok acts w)) = [].
Proof.
  intros w acts.
  destruct (paused_queue_never_grows env_ok acts w eq_refl eq_refl)
    as (Hcb & _ & Hp & Hlen & Hfed).
  split; [apply Hcb|]. split; [reflexivity|].
  split; [exact Hp|]. split; [exact Hlen | exact Hfed].
Defined.

(** ** Engine errors in the worker *)

(** C2 (what the code does).  When the engine raises while the worker
    feeds it a frame, nothing in [_process_audio] catches the exception:
    it leaves the loop and the thread ends.  [on_error] is not called
    (the only new event is the thread's death), and the running flag
    stays set. *)
Theorem engine_error_escapes_worker
  (env : Env) (e : exn) (data : frame) (rest : list frame) (w : World) :
  worker_alive w = true ->
  _running (self w) = true ->
  _paused (self w) = false ->
  recognizer (self w) = Some Recognizer ->
  audio_queue (self w) = data :: rest ->
  _process_audio_pass env (FeedError e) w
    = (Raise e, with_self (set_queue rest (self w)) w) /\
  worker_pass env (FeedError e) w
    = (Return tt,
       {| self := set_queue rest (self w);
          worker_alive := false;
          trace := trace w ++ [ThreadDied e] |}) /\
  _running (self (exec (worker_pass env (FeedError e)) w)) = true.
Proof.
  intros Hal Hrun Hp Hrec Hq. destruct w as [l alive tr].
  destruct l as [cfg oc oe os m r s q running paused t].
  simpl in Hal, Hrun, Hp, Hrec, Hq. subst.
  unfold worker_pass, _process_audio_pass, with_self. run_monad.
  repeat split; reflexivity.
Qed.

Lemma engine_error_escapes_worker_witness :
  eval (_process_audio_pass env_ok (FeedError engine_failure)) world_listening
    = Raise engine_failure /\
  worker_alive (exec (worker_pass env_ok (FeedError engine_failure))
                     world_listening) = false /\
  trace (exec (worker_pass env_ok (FeedError engine_failure)) world_listening)
    = [ThreadDied engine_failure] /\
  on_error (self world_listening) = Some Callback /\
  eval (start env_ok)
       (exec (worker_pass env_ok (FeedError engine_failure)) world_listening)
    = Return true /\
  worker_alive
    (exec (start env_ok)
       (exec (worker_pass env_ok (FeedError engine_failure)) world_listening))
    = false.
Proof.
  destruct (@engine_error_escapes_worker env_ok engine_failure
              [Byte.x01] [] world_listening
              eq_refl eq_refl eq_refl eq_refl eq_refl) as (Hpass & Hworker & _).
  unfold eval, exec. rewrite Hpass, Hworker. repeat split; reflexivity.
Defined.

(** ** The examples of the specification, run on the code *)

Example wake_word_stripped :
  match_command (py "hey music next please") DEFAULT_CONFIG = Some (py "next").
Proof. reflexivity. Qed.

Example wake_word_missing :
  match_command (py "next please") DEFAULT_CONFIG = None.
Proof. reflexivity. Qed.

Example wake_word_disabled :
  match_command (py "Skip this one") config_back_next = None /\
  match_command (py "go BACK") config_back_next = Some (py "back").
Proof. split; reflexivity. Qed.

Example replace_is_not_overlapping :
  str_replace (py "aa") [] (py "aaaxaabaa") = py "axb" /\
  str_replace (py "ab") [] (py "aabb") = py "ab" /\
  str_replace [] (py "-") (py "abc") = py "-a-b-c-".
Proof. repeat split; reflexivity. Qed.

Example strip_both_ends : str_strip (py "  a b  ") = py "a b".
Proof. reflexivity. Qed.

(** A whole session: start, one command, pause, frames dropped, stop. *)
Example session_trace :
  trace (run env_ok
           [CallStart; Capture [Byte.x01];
            Worker (Final (py "hey music skip")); CallPause;
            Capture [Byte.x02]; Worker Partial; CallStop; Worker Partial]
           (world0 listener0))
  = [StreamOpened None; StreamStarted; ThreadStarted;
     OnStatus (py "listening"); EngineFed [Byte.x01];
     KeyDown media_next; KeyUp media_next; OnCommand (py "next");
     OnStatus (py "paused"); StreamStopped; StreamClosed; ThreadJoined].
Proof. reflexivity. Qed.

(* ===================================================================== *)
(** * Further properties of the code *)
(* ===================================================================== *)

(** ** Trimming and lowercasing *)

Lemma lower_char_idem (c : ascii) : lower_char (lower_char c) = lower_char c.
Proof. destruct c as [[] [] [] [] [] [] [] []]; reflexivity. Qed.

Lemma isspace_lower_char (c : ascii) : isspace (lower_char c) = isspace c.
Proof. destruct c as [[] [] [] [] [] [] [] []]; reflexivity. Qed.

Lemma str_lower_idem (s : str) : str_lower (str_lower s) = str_lower s.
Proof.
  unfold str_lower. rewrite map_map. apply map_ext. apply lower_char_idem.
Qed.

Lemma lstrip_lower (s : str) : str_lstrip (str_lower s) = str_lower (str_lstrip s).
Proof.
  induction s as [|c s IH]; [reflexivity|]. simpl.
  rewrite isspace_lower_char. destruct (isspace c); [exact IH | reflexivity].
Qed.

Lemma strip_lower (s : str) : str_strip (str_lower s) = str_lower (str_strip s).
Proof.
  assert (Hrev : forall x, rev (str_lower x) = str_lower (rev x))
    by (intros x; unfold str_lower; symmetry; apply map_rev).
  unfold str_strip, str_rstrip.
  rewrite lstrip_lower, Hrev, lstrip_lower, Hrev. reflexivity.
Qed.

(** Leading blanks are dropped. *)
Lemma lstrip_blanks (p s : str) :
  forallb isspace p = true -> str_lstrip (p ++ s) = str_lstrip s.
Proof.
  induction p as [|c p IH]; [reflexivity|]. simpl.
  intros H. apply andb_prop in H. destruct H as [Hc Hp].
  rewrite Hc. auto.
Qed.

(** [lstrip] cuts a prefix of blanks. *)
Lemma lstrip_split (s : str) :
  exists p, s = p ++ str_lstrip s /\ forallb isspace p = true.
Proof.
  induction s as [|c s (p & Hs & Hp)]; [exists []; auto|]. simpl.
  destruct (isspace c) eqn:E.
  - exists (c :: p). simpl. rewrite E, Hp. split; [congruence | reflexivity].
  - exists []. auto.
Qed.

(** What [lstrip] leaves does not start with a blank. *)
Lemma lstrip_head (s : str) :
  match str_lstrip s with [] => True | c :: _ => isspace c = false end.
Proof.
  induction s as [|c s IH]; simpl; [exact I|].
  destruct (isspace c) eqn:E; [exact IH | exact E].
Qed.

Lemma lstrip_fixed (s : str) :
  match s with [] => True | c :: _ => isspace c = false end -> str_lstrip s = s.
Proof. destruct s as [|c s]; simpl; [reflexivity | intros ->; reflexivity]. Qed.

Lemma lstrip_idem (s : str) : str_lstrip (str_lstrip s) = str_lstrip s.
Proof. apply lstrip_fixed, lstrip_head. Qed.

Lemma lstrip_all_blank (s : str) :
  forallb isspace s = true -> str_lstrip s = [].
Proof.
  intros H. rewrite <- (app_nil_r s). rewrite lstrip_blanks; auto.
Qed.

Lemma lstrip_app (s q : str) :
  str_lstrip s <> [] -> str_lstrip (s ++ q) = str_lstrip s ++ q.
Proof.
  induction s as [|c s IH]; simpl; [congruence|].
  destruct (isspace c); auto.
Qed.

Lemma forallb_rev (f : ascii -> bool) (l : str) :
  forallb f (rev l) = forallb f l.
Proof.
  induction l as [|c l IH]; [reflexivity|]. simpl.
  rewrite forallb_app, IH. simpl. rewrite andb_true_r, andb_comm. reflexivity.
Qed.

(** Trailing blanks are dropped. *)
Lemma rstrip_blanks (s q : str) :
  forallb isspace q = true -> str_rstrip (s ++ q) = str_rstrip s.
Proof.
  intros H. unfold str_rstrip. rewrite rev_app_distr, lstrip_blanks; auto.
  rewrite forallb_rev. exact H.
Qed.

Lemma rstrip_all_blank (s : str) :
  forallb isspace s = true -> str_rstrip s = [].
Proof.
  intros H. unfold str_rstrip. rewrite lstrip_all_blank; auto.
  rewrite forallb_rev. exact H.
Qed.

(** [rstrip] cuts a suffix of blanks. *)
Lemma rstrip_split (s : str) :
  exists q, s = str_rstrip s ++ q /\ forallb isspace q = true.
Proof.
  destruct (lstrip_split (rev s)) as (p & Hs & Hp).
  exists (rev p). unfold str_rstrip. split.
  - rewrite <- rev_app_distr, <- Hs, rev_involutive. reflexivity.
  - rewrite forallb_rev. exact Hp.
Qed.

(** Blanks around a text do not survive [strip]. *)
Lemma strip_blanks (p s q : str) :
  forallb isspace p = true -> forallb isspace q = true ->
  str_strip (p ++ s ++ q) = str_strip s.
Proof.
  intros Hp Hq. unfold str_strip. rewrite lstrip_blanks by exact Hp.
  destruct (str_lstrip s) as [|c r] eqn:E.
  - destruct (lstrip_split s) as (p' & Hs & Hp'). rewrite E, app_nil_r in Hs.
    subst p'. rewrite lstrip_all_blank.
    + reflexivity.
    + rewrite forallb_app, Hp', Hq. reflexivity.
  - rewrite lstrip_app by congruence. rewrite E.
    apply rstrip_blanks. exact Hq.
Qed.

(** What [strip] leaves has no blank at either end. *)
Lemma rstrip_head (s : str) :
  match s with [] => True | c :: _ => isspace c = false end ->
  match str_rstrip s with [] => True | c :: _ => isspace c = false end.
Proof.
  intros H. destruct (rstrip_split s) as (q & Hs & _).
  destruct (str_rstrip s) as [|c r]; [exact I|].
  rewrite Hs in H. exact H.
Qed.

Lemma rstrip_idem (s : str) : str_rstrip (str_rstrip s) = str_rstrip s.
Proof.
  unfold str_rstrip. rewrite rev_involutive, lstrip_idem. reflexivity.
Qed.

Lemma strip_idem (s : str) : str_strip (str_strip s) = str_strip s.
Proof.
  unfold str_strip.
  rewrite (lstrip_fixed (str_rstrip (str_lstrip s))).
  - apply rstrip_idem.
  - apply rstrip_head, lstrip_head.
Qed.

(** The normalised text of [match_command]. *)
Lemma match_command_normal (text text' : str) (config : Config) :
  str_strip (str_lower text) = str_strip (str_lower text') ->
  match_command text config = match_command text' config.
Proof. unfold match_command. intros ->. reflexivity. Qed.

(** X1.  The matcher does not see letter case or surrounding blanks: the
    lowercased text, the trimmed text and the text with any blanks put
    around it get the same answer as the text itself. *)
Theorem match_command_ignores_case_and_blanks
  (pre post text : str) (config : Config) :
  forallb isspace pre = true ->
  forallb isspace post = true ->
  match_command (pre ++ text ++ post) config = match_command text config /\
  match_command (str_lower text) config = match_command text config /\
  match_command (str_strip text) config = match_command text config.
Proof.
  intros Hpre Hpost. split; [|split]; apply match_command_normal.
  - rewrite !strip_lower. f_equal. apply strip_blanks; assumption.
  - rewrite str_lower_idem. reflexivity.
  - rewrite !strip_lower, strip_idem. reflexivity.
Qed.

Lemma match_command_ignores_case_and_blanks_witness :
  match_command (py "  " ++ py "Hey Music SKIP" ++ py " ") DEFAULT_CONFIG
    = match_command (py "Hey Music SKIP") DEFAULT_CONFIG /\
  match_command (str_lower (py "Hey Music SKIP")) DEFAULT_CONFIG
    = match_command (py "Hey Music SKIP") DEFAULT_CONFIG /\
  match_command (str_strip (py "Hey Music SKIP")) DEFAULT_CONFIG
    = match_command (py "Hey Music SKIP") DEFAULT_CONFIG.
Proof.
  apply (match_command_ignores_case_and_blanks
           (py "  ") (py " ") (py "Hey Music SKIP") DEFAULT_CONFIG);
    reflexivity.
Defined.

(** ** Substrings *)

Lemma startswith_spec (w s : str) :
  startswith w s = true <-> exists b, s = w ++ b.
Proof.
  revert s. induction w as [|a w IH]; intros s; simpl.
  - split; [intros _; exists s; reflexivity | reflexivity].
  - destruct s as [|c s].
    + split; [discriminate | intros (b & H); discriminate].
    + rewrite andb_true_iff, Ascii.eqb_eq, IH. split.
      * intros (-> & b & ->). exists b. reflexivity.
      * intros (b & H). injection H as -> ->. split; [reflexivity | now exists b].
Qed.

(** [w in s] says that [s] is [w] with something before and after it. *)
Lemma str_in_spec (w s : str) :
  str_in w s = true <-> exists a b, s = a ++ w ++ b.
Proof.
  induction s as [|c s IH]; simpl.
  - rewrite startswith_spec. split.
    + intros (b & H). exists [], b. exact H.
    + intros (a & b & H). symmetry in H.
      apply app_eq_nil in H. destruct H as (-> & H).
      apply app_eq_nil in H. destruct H as (-> & ->). exists []. reflexivity.
  - rewrite orb_true_iff, startswith_spec, IH. split.
    + intros [(b & H) | (a & b & H)].
      * exists [], b. exact H.
      * exists (c :: a), b. simpl. congruence.
    + intros (a & b & H). destruct a as [|c' a].
      * left. exists b. exact H.
      * right. injection H as -> ->. exists a, b. reflexivity.
Qed.

(** X2.  The trigger loop finds a trigger exactly when the text can be cut
    into a part before, the lowercased trigger, and a part after: nothing
    ties a trigger to word boundaries or to a position in the text. *)
Theorem match_triggers_cuts_text (text : str) (triggers : list str) :
  match_triggers text triggers = true <->
  exists trigger before after,
    In trigger triggers /\ text = before ++ str_lower trigger ++ after.
Proof.
  rewrite match_triggers_true. split.
  - intros (t & Hin & Ht). apply str_in_spec in Ht.
    destruct Ht as (a & b & Ht). exists t, a, b. auto.
  - intros (t & a & b & Hin & Ht). exists t. split; [exact Hin|].
    apply str_in_spec. exists a, b. exact Ht.
Qed.

Lemma match_triggers_cuts_text_witness :
  match_triggers (py "replay the song") [py "skip"; py "Play"] = true.
Proof.
  apply (match_triggers_cuts_text (py "replay the song") [py "skip"; py "Play"]).
  exists (py "Play"), (py "re"), (py " the song").
  split; [right; left; reflexivity | reflexivity].
Defined.

(** ** Edges of the matcher *)

Lemma str_lower_nil (t : str) : str_lower t = [] <-> t = [].
Proof. destruct t; simpl; split; congruence. Qed.

Lemma str_in_nil_r (w : str) : w <> [] -> str_in w [] = false.
Proof. destruct w; [congruence | reflexivity]. Qed.

Lemma startswith_refl (w : str) : startswith w w = true.
Proof. apply startswith_spec. exists []. rewrite app_nil_r. reflexivity. Qed.

(** X3.  An empty trigger in the first entry of the commands mapping
    takes every text that passes the gate: the empty string is a substring
    of everything, so its action is returned whatever was said. *)
Theorem empty_trigger_always_fires
  (text : str) (config : Config) (a : str) (triggers : list str)
  (rest : list (str * list str)) :
  passes_gate text config = true ->
  get_commands config = (a, triggers) :: rest ->
  In [] triggers ->
  match_command text config = Some a.
Proof.
  intros Hgate Hcmds Hin. rewrite (match_command_passed _ _ Hgate), Hcmds.
  simpl. replace (match_triggers (remaining_text text config) triggers) with true.
  - reflexivity.
  - symmetry. apply match_triggers_true. exists []. split; [exact Hin|].
    simpl. destruct (remaining_text text config); reflexivity.
Qed.

Lemma empty_trigger_always_fires_witness :
  match_command (py "hey music what time is it") config_empty_trigger
    = Some (py "pause").
Proof.
  apply (@empty_trigger_always_fires
           (py "hey music what time is it") config_empty_trigger
           (py "pause") [py "stop"; []] [(py "next", [py "next"])]).
  - reflexivity.
  - reflexivity.
  - right. left. reflexivity.
Defined.

(** X4.  Saying the wake word and nothing else gives no action, as long as
    no trigger is the empty string: the wake word is cut out and nothing
    is left to search. *)
Theorem wake_word_alone_is_no_command (text : str) (config : Config) :
  get_wake_word_enabled config = true ->
  str_lower (get_wake_word config) <> [] ->
  str_strip (str_lower text) = str_lower (get_wake_word config) ->
  (forall a triggers trigger,
     In (a, triggers) (get_commands config) -> In trigger triggers ->
     trigger <> []) ->
  match_command text config = None.
Proof.
  intros Hen Hw Ht Htrig. unfold match_command. rewrite Ht, Hen.
  set (w := str_lower (get_wake_word config)) in *.
  assert (Hin : str_in w w = true).
  { apply str_in_spec. exists [], []. rewrite app_nil_r. reflexivity. }
  assert (Hfind : str_find w w = Some 0).
  { destruct w as [|c r]; [congruence|].
    cbn [str_find]. rewrite startswith_refl. reflexivity. }
  rewrite Hin, (str_replace_first w w Hfind).
  rewrite Nat.add_0_l, skipn_all.
  destruct w as [|c r] eqn:Ew; [congruence|]. simpl.
  apply match_commands_none. intros a ts t Hi Hj.
  apply str_in_nil_r. intros E.
  exact (Htrig a ts t Hi Hj (proj1 (str_lower_nil t) E)).
Qed.

Lemma wake_word_alone_is_no_command_witness :
  match_command (py " Hey Music ") DEFAULT_CONFIG = None.
Proof.
  apply (wake_word_alone_is_no_command (py " Hey Music ") DEFAULT_CONFIG).
  - reflexivity.
  - discriminate.
  - reflexivity.
  - intros a ts t Hi Hj. simpl in Hi.
    repeat (destruct Hi as [Hi | Hi];
            [injection Hi as <- <-; simpl in Hj;
             repeat (destruct Hj as [<- | Hj]; [discriminate|]);
             contradiction|]).
    contradiction.
Defined.

(** ** Matching and dispatch together *)

(** The matcher only returns keys of the commands mapping. *)
Lemma match_command_returns_key (text : str) (config : Config) (a : str) :
  match_command text config = Some a ->
  exists triggers, In (a, triggers) (get_commands config).
Proof.
  unfold match_command. intros H.
  assert (Hm : exists t, match_commands t (get_commands config) = Some a).
  { destruct (negb (truthy (str_strip (str_lower text)))); [discriminate|].
    destruct (get_wake_word_enabled config); [|eauto].
    destruct (negb (str_in _ _)); [discriminate | eauto]. }
  destruct Hm as (t & Hm). apply match_commands_some in Hm.
  destruct Hm as (b & ts & af & Heq & _). exists ts. rewrite Heq.
  apply in_or_app. right. left. reflexivity.
Qed.

(** X5.  When a text matches a non-empty action name, the listener first
    dispatches it and then notifies [on_command]; the notification is made
    whatever the dispatcher answered, so also when no key could be sent.
    When nothing matches, nothing happens at all. *)
Theorem handle_recognition_dispatches_then_notifies
  (env : Env) (text : str) (w : World) :
  (forall a,
     match_command text (config (self w)) = Some a -> truthy a = true ->
     exists sent keys,
       send_media_key env a w = (Return sent, add_events keys w) /\
       _handle_recognition env text w =
         (Return tt,
          add_events (keys ++ callback_events (on_command (self w)) (OnCommand a))
                     w)) /\
  (match_command text (config (self w)) = None ->
   _handle_recognition env text w = (Return tt, w)).
Proof.
  split.
  - intros a Hm Ha.
    destruct (send_media_key_returns env a w) as (b & evs & Hs).
    exists b, evs. split; [exact Hs|].
    unfold _handle_recognition, bind, get_self. rewrite Hm, Ha, Hs.
    unfold call, callback_events, add_events, emit, ret. simpl.
    destruct (on_command (self w)); simpl.
    + rewrite app_assoc. reflexivity.
    + rewrite app_nil_r. reflexivity.
  - intros Hm. unfold _handle_recognition, bind, get_self. rewrite Hm.
    reflexivity.
Qed.

Lemma handle_recognition_dispatches_then_notifies_witness :
  (exists sent keys,
     send_media_key env_no_keyboard (py "next") (world0 listener0)
       = (Return sent, add_events keys (world0 listener0)) /\
     _handle_recognition env_no_keyboard (py "hey music skip") (world0 listener0)
       = (Return tt,
          add_events (keys ++ [OnCommand (py "next")]) (world0 listener0))) /\
  _handle_recognition env_ok (py "good morning") (world0 listener0)
    = (Return tt, world0 listener0).
Proof.
  destruct (handle_recognition_dispatches_then_notifies
              env_no_keyboard (py "hey music skip") (world0 listener0))
    as (Hsome & _).
  destruct (handle_recognition_dispatches_then_notifies
              env_ok (py "good morning") (world0 listener0))
    as (_ & Hnone).
  split; [exact (Hsome (py "next") eq_refl eq_refl) | exact (Hnone eq_refl)].
Defined.

(** X6.  With a configuration that keeps to the four action names and a
    keyboard that works, every text that matches produces exactly a
    key-down and a key-up of the action's media key followed by the
    [on_command] notification. *)
Theorem closed_config_always_sends_a_key
  (env : Env) (text : str) (w : World) (a : str) :
  closed_config (config (self w)) ->
  (forall k, keyboard_press env k = Returns /\ keyboard_release env k = Returns) ->
  match_command text (config (self w)) = Some a ->
  exists key,
    dict_get MEDIA_KEYS a = Some key /\
    _handle_recognition env text w =
      (Return tt,
       add_events ([KeyDown key; KeyUp key]
                   ++ callback_events (on_command (self w)) (OnCommand a)) w).
Proof.
  intros Hclosed Hkb Hm.
  destruct (match_command_returns_key _ _ Hm) as (ts & Hin).
  specialize (Hclosed a ts Hin).
  assert (Hkey : exists key, dict_get MEDIA_KEYS a = Some key /\ truthy a = true).
  { simpl in Hclosed.
    destruct Hclosed as [<- | [<- | [<- | [<- | []]]]]; eexists; split; reflexivity. }
  destruct Hkey as (key & Hkey & Ha). exists key. split; [exact Hkey|].
  assert (Hs : send_media_key env a w
               = (Return true, add_events [KeyDown key; KeyUp key] w)).
  { unfold send_media_key. rewrite Hkey.
    destruct (Hkb key) as (Hp & Hr).
    unfold try_except, bind, extern. rewrite Hp, Hr.
    unfold emit, ret, add_events. simpl. rewrite <- app_assoc. reflexivity. }
  unfold _handle_recognition, bind, get_self. rewrite Hm, Ha, Hs.
  unfold call, callback_events, add_events, emit, ret. simpl.
  destruct (on_command (self w)); simpl;
    rewrite <- ?app_assoc, ?app_nil_r; reflexivity.
Qed.

Lemma closed_config_always_sends_a_key_witness :
  exists key,
    dict_get MEDIA_KEYS (py "back") = Some key /\
    _handle_recognition env_ok (py "hey music previous") (world0 listener0) =
      (Return tt,
       add_events ([KeyDown key; KeyUp key]
                   ++ callback_events (on_command (self (world0 listener0)))
                                      (OnCommand (py "back")))
                  (world0 listener0)).
Proof.
  apply (@closed_config_always_sends_a_key
           env_ok (py "hey music previous") (world0 listener0) (py "back")).
  - intros a ts Hin. simpl in Hin.
    destruct Hin as [H | [H | [H | [H | []]]]]; injection H as <- _; simpl; tauto.
  - intros k. split; reflexivity.
  - reflexivity.
Defined.

(** ** Starting, failing and starting again *)

(** [start] on a running listener does nothing. *)
Lemma start_running (env : Env) (w : World) :
  _running (self w) = true -> start env w = (Return true, w).
Proof. intros H. unfold start, bind, get_self. rewrite H. reflexivity. Qed.

(** The world after a [start] that goes through. *)
Lemma start_ok_world (env : Env) (w : World) :
  _running (self w) = false ->
  startup_ok env (mic_device (config (self w))) = true ->
  start env w =
    (Return true,
     {| self := started (self w);
        worker_alive := true;
        trace := trace w ++
                 [StreamOpened (mic_device (config (self w)));
                  StreamStarted; ThreadStarted] ++
                 callback_events (on_status (self w)) (OnStatus (py "listening")) |}).
Proof.
  intros Hrun Hok. destruct w as [l alive tr].
  destruct l as [cfg oc oe os m r s q running paused t].
  simpl in Hrun. subst running.
  destruct env as [mp pe mn kn rn ss st sc kp kr].
  unfold startup_ok in Hok. unfold start, _load_model, started. run_monad.
  destruct pe; [|discriminate]. destruct mn; [|discriminate].
  destruct kn; [|discriminate]. simpl in *.
  destruct (rn (mic_device cfg)); [|discriminate].
  destruct ss; [|discriminate]. simpl.
  destruct os; simpl; rewrite <- ?app_assoc; reflexivity.
Qed.

(** The world after a [start] that fails: the flags, the thread, the
    queue, the configuration and the callbacks are as before. *)
Lemma start_fail_world (env : Env) (w : World) :
  _running (self w) = false ->
  startup_ok env (mic_device (config (self w))) = false ->
  exists l' evs,
    start env w =
      (Return false,
       {| self := l'; worker_alive := worker_alive w; trace := trace w ++ evs |}) /\
    forallb is_start_event evs = true /\
    _running l' = false /\ _paused l' = _paused (self w) /\
    _thread l' = _thread (self w) /\ audio_queue l' = audio_queue (self w) /\
    config l' = config (self w) /\ on_command l' = on_command (self w) /\
    on_error l' = on_error (self w) /\ on_status l' = on_status (self w).
Proof.
  intros Hrun Hok. destruct w as [l alive tr].
  destruct l as [cfg oc oe os m r s q running paused t].
  simpl in Hrun. subst running.
  destruct env as [mp pe mn kn rn ss st sc kp kr].
  unfold startup_ok in Hok. unfold start, _load_model. run_monad.
  destruct oe, pe, mn as [|e1], kn as [|e2]; simpl in *;
    try (destruct (rn (mic_device cfg)) as [|e3]; simpl in * );
    try (destruct ss as [|e4]; simpl in * );
    try discriminate;
    first
      [ eexists; exists []; split;
        [rewrite app_nil_r; reflexivity | repeat split; reflexivity]
      | eexists; eexists; split;
        [rewrite <- ?app_assoc; reflexivity | repeat split; reflexivity] ].
Qed.

(** X7.  Once [start] has returned true, any further [start] returns true
    and changes nothing, whatever the model, the device or the engine
    would answer now: a running listener is never started twice. *)
Theorem start_twice_is_start_once (env env' : Env) (w : World) :
  eval (start env) w = Return true ->
  start env' (exec (start env) w) = (Return true, exec (start env) w).
Proof.
  intros Hret. apply start_running.
  destruct (_running (self w)) eqn:Hrun.
  - unfold exec. rewrite (start_running env w Hrun). exact Hrun.
  - destruct (startup_ok env (mic_device (config (self w)))) eqn:Hok.
    + unfold exec. rewrite (start_ok_world env w Hrun Hok). reflexivity.
    + destruct (start_fail_world env w Hrun Hok) as (l' & evs & Hs & _).
      unfold eval in Hret. rewrite Hs in Hret. discriminate.
Qed.

Lemma start_twice_is_start_once_witness :
  start env_no_mic (exec (start env_ok) (world0 listener0))
    = (Return true, exec (start env_ok) (world0 listener0)).
Proof.
  apply (start_twice_is_start_once env_ok env_no_mic (world0 listener0)).
  reflexivity.
Defined.

(** X8.  A failed [start] can be tried again: it leaves the running flag
    down and the configuration in place, so a later [start] for which
    model, engine and device answer goes through. *)
Theorem failed_start_can_be_retried (env env' : Env) (w : World) :
  _running (self w) = false ->
  startup_ok env (mic_device (config (self w))) = false ->
  startup_ok env' (mic_device (config (self w))) = true ->
  eval (start env) w = Return false /\
  eval (start env') (exec (start env) w) = Return true /\
  _running (self (exec (start env') (exec (start env) w))) = true /\
  worker_alive (exec (start env') (exec (start env) w)) = true.
Proof.
  intros Hrun Hbad Hgood.
  destruct (start_fail_world env w Hrun Hbad)
    as (l' & evs & Hs & _ & Hr & _ & _ & _ & Hc & _).
  unfold eval, exec. rewrite Hs. simpl. split; [reflexivity|].
  rewrite start_ok_world.
  - repeat split; reflexivity.
  - exact Hr.
  - simpl. rewrite Hc. exact Hgood.
Qed.

Lemma failed_start_can_be_retried_witness :
  eval (start env_no_mic) (world0 listener0) = Return false /\
  eval (start env_ok) (exec (start env_no_mic) (world0 listener0)) = Return true /\
  _running (self (exec (start env_ok) (exec (start env_no_mic) (world0 listener0))))
    = true /\
  worker_alive (exec (start env_ok) (exec (start env_no_mic) (world0 listener0)))
    = true.
Proof.
  apply (failed_start_can_be_retried env_no_mic env_ok (world0 listener0));
    reflexivity.
Defined.

(** X9.  When model and engine load but the stream cannot be opened,
    [start] fails without releasing what it loaded: the listener keeps the
    model and the recognizer although it is not running.  They stay until
    [stop] is called, which drops them. *)
Theorem failed_start_keeps_the_engine (env : Env) (w : World) (e : exn) :
  _running (self w) = false ->
  path_exists env = true ->
  Model_new env = Returns ->
  KaldiRecognizer_new env = Returns ->
  RawInputStream_new env (mic_device (config (self w))) = Raises e ->
  eval (start env) w = Return false /\
  _running (self (exec (start env) w)) = false /\
  model (self (exec (start env) w)) = Some VoskModel /\
  recognizer (self (exec (start env) w)) = Some Recognizer /\
  stream (self (exec (start env) w)) = stream (self w) /\
  model (self (exec (stop env) (exec (start env) w))) = None /\
  recognizer (self (exec (stop env) (exec (start env) w))) = None.
Proof.
  intros Hrun Hpath Hmodel Hrec Hopen.
  assert (Hstart :
    start env w =
      (Return false,
       add_events
         (callback_events (on_error (self w))
            (OnError (py "Failed to open microphone: " ++ exn_str e)))
         (with_self (set_recognizer (Some Recognizer)
                       (set_model (Some VoskModel) (self w))) w))).
  { destruct w as [l alive tr].
    destruct l as [cfg oc oe os m r s q running paused t].
    simpl in Hrun, Hopen. subst running.
    unfold start, _load_model, add_events, with_self.
    unfold bind, try_except, get_self, modify_self, raise, ret, call, emit.
    simpl. rewrite Hpath, Hmodel, Hrec. simpl. rewrite Hopen. simpl.
    destruct oe; simpl; rewrite ?app_nil_r; reflexivity. }
  unfold eval, exec. rewrite Hstart, stop_world. simpl.
  repeat split; try reflexivity. exact Hrun.
Qed.

Lemma failed_start_keeps_the_engine_witness :
  eval (start env_mic_taken) (world0 listener0) = Return false /\
  _running (self (exec (start env_mic_taken) (world0 listener0))) = false /\
  model (self (exec (start env_mic_taken) (world0 listener0))) = Some VoskModel /\
  recognizer (self (exec (start env_mic_taken) (world0 listener0)))
    = Some Recognizer /\
  stream (self (exec (start env_mic_taken) (world0 listener0))) = None /\
  model (self (exec (stop env_mic_taken)
                 (exec (start env_mic_taken) (world0 listener0)))) = None /\
  recognizer (self (exec (stop env_mic_taken)
                      (exec (start env_mic_taken) (world0 listener0)))) = None.
Proof.
  apply (@failed_start_keeps_the_engine env_mic_taken (world0 listener0)
           (Exception (py "device busy"))); reflexivity.
Defined.

(** X10.  [stop] followed by [start] brings up a fresh session from any
    state, also from one whose worker died while the running flag stayed
    set: the listener runs, is not paused, has an empty queue and a live
    worker, and keeps its configuration. *)
Theorem stop_then_start_recovers (env env' : Env) (w : World) :
  startup_ok env' (mic_device (config (self w))) = true ->
  eval (start env') (exec (stop env) w) = Return true /\
  self (exec (start env') (exec (stop env) w))
    = started (set_queue [] (self w)) /\
  worker_alive (exec (start env') (exec (stop env) w)) = true /\
  config (self (exec (start env') (exec (stop env) w))) = config (self w).
Proof.
  intros Hok. unfold eval, exec. rewrite stop_world. simpl.
  rewrite start_ok_world; [| reflexivity | exact Hok].
  simpl. repeat split; reflexivity.
Qed.

Lemma stop_then_start_recovers_witness :
  let dead := exec (worker_pass env_ok (FeedError engine_failure)) world_listening in
  worker_alive dead = false /\
  eval (start env_ok) dead = Return true /\
  worker_alive (exec (start env_ok) dead) = false /\
  eval (start env_ok) (exec (stop env_ok) dead) = Return true /\
  worker_alive (exec (start env_ok) (exec (stop env_ok) dead)) = true.
Proof.
  intros dead.
  destruct (stop_then_start_recovers env_ok env_ok dead eq_refl)
    as (Hret & _ & Halive & _).
  split; [reflexivity|]. split; [reflexivity|]. split; [reflexivity|].
  split; [exact Hret | exact Halive].
Defined.

(** ** Pausing, resuming and the tray's toggle *)

Lemma pause_world (w : World) :
  pause w =
    (Return tt,
     {| self := set_paused true (self w);
        worker_alive := worker_alive w;
        trace := trace w ++
                 callback_events (on_status (self w)) (OnStatus (py "paused")) |}).
Proof.
  destruct w as [l alive tr]. unfold pause. run_monad.
  destruct (on_status l); simpl; rewrite ?app_nil_r; reflexivity.
Qed.

Lemma resume_world (w : World) :
  resume w =
    (Return tt,
     {| self := set_paused false (self w);
        worker_alive := worker_alive w;
        trace := trace w ++
                 callback_events (on_status (self w)) (OnStatus (py "listening")) |}).
Proof.
  destruct w as [l alive tr]. unfold resume. run_monad.
  destruct (on_status l); simpl; rewrite ?app_nil_r; reflexivity.
Qed.

Lemma set_paused_same (l : VoiceListener) : set_paused (_paused l) l = l.
Proof. destruct l. reflexivity. Qed.

(** X11.  [pause] works in every state and only sets the paused flag: a
    second [pause] leaves the listener object as the first one did, and
    each call makes one "paused" status callback, with no de-duplication.
    [resume] after [pause] clears the flag again, so a listener that was
    not paused is exactly as before. *)
Theorem pause_is_idempotent_and_resume_undoes_it (w : World) :
  self (exec pause w) = set_paused true (self w) /\
  worker_alive (exec pause w) = worker_alive w /\
  self (exec pause (exec pause w)) = self (exec pause w) /\
  trace (exec pause (exec pause w)) =
    trace w ++ callback_events (on_status (self w)) (OnStatus (py "paused"))
            ++ callback_events (on_status (self w)) (OnStatus (py "paused")) /\
  self (exec resume (exec pause w)) = set_paused false (self w) /\
  (_paused (self w) = false -> self (exec resume (exec pause w)) = self w).
Proof.
  unfold exec. rewrite !pause_world, !resume_world. simpl.
  repeat split; try reflexivity.
  - rewrite <- app_assoc. reflexivity.
  - intros Hp. rewrite <- (set_paused_same (self w)) at 2. rewrite Hp.
    reflexivity.
Qed.

Lemma pause_is_idempotent_and_resume_undoes_it_witness :
  trace (exec pause (exec pause world_listening))
    = [OnStatus (py "paused"); OnStatus (py "paused")] /\
  self (exec resume (exec pause world_listening)) = self world_listening.
Proof.
  destruct (pause_is_idempotent_and_resume_undoes_it world_listening)
    as (_ & _ & _ & Htrace & _ & Hundo).
  split; [exact Htrace | exact (Hundo eq_refl)].
Defined.

(** X12.  The tray's toggle flips the paused flag and makes one status
    callback for the state it enters; toggling twice returns the listener
    object to what it was. *)
Theorem toggle_pause_twice_restores (w : World) :
  eval _on_toggle_pause w = Return tt /\
  _paused (self (exec _on_toggle_pause w)) = negb (_paused (self w)) /\
  trace (exec _on_toggle_pause w) =
    trace w ++
    callback_events (on_status (self w))
      (OnStatus (if _paused (self w) then py "listening" else py "paused")) /\
  self (exec _on_toggle_pause (exec _on_toggle_pause w)) = self w.
Proof.
  assert (Ht : forall v,
    _on_toggle_pause v = if _paused (self v) then resume v else pause v).
  { intros v. unfold _on_toggle_pause, is_paused, bind, get_self, ret.
    destruct (_paused (self v)); reflexivity. }
  unfold eval, exec. rewrite (Ht w).
  destruct (_paused (self w)) eqn:Hp.
  - rewrite resume_world. simpl. repeat split; try reflexivity.
    rewrite Ht. simpl. rewrite pause_world. simpl.
    destruct w as [l alive tr]. destruct l. simpl in *. subst. reflexivity.
  - rewrite pause_world. simpl. repeat split; try reflexivity.
    rewrite Ht. simpl. rewrite resume_world. simpl.
    destruct w as [l alive tr]. destruct l. simpl in *. subst. reflexivity.
Qed.

(** ** The worker after [stop] *)





(** ** From the capture callback to the engine *)

Lemma run_cons (env : Env) (a : action) (acts : list action) (w : World) :
  run env (a :: acts) w = run env acts (step env a w).
Proof. reflexivity. Qed.

Lemma fed_dispatch (evs : list event) :
  forallb is_dispatch_event evs = true -> fed evs = [].
Proof.
  induction evs as [|ev evs IH]; [reflexivity|]. simpl.
  intros H. apply andb_prop in H. destruct H as [Hev Hevs].
  rewrite (IH Hevs). destruct ev; try discriminate; reflexivity.
Qed.

(** The dispatcher only adds key events. *)
Lemma send_media_key_keys (env : Env) (action : str) (w : World) :
  exists b evs,
    send_media_key env action w = (Return b, add_events evs w) /\
    forallb is_dispatch_event evs = true.
Proof.
  unfold send_media_key.
  destruct (dict_get MEDIA_KEYS action) as [k|].
  - unfold try_except, bind, extern, emit, raise, ret.
    destruct (keyboard_press env k); [destruct (keyboard_release env k)|].
    + exists true, [KeyDown k; KeyUp k]. unfold add_events. simpl.
      rewrite <- app_assoc. auto.
    + exists false, [KeyDown k]. auto.
    + exists false, []. rewrite add_events_nil. auto.
  - exists false, []. rewrite add_events_nil. auto.
Qed.

(** Handling a text only adds key events and the command notification. *)
Lemma handle_recognition_world (env : Env) (text : str) (w : World) :
  exists evs,
    _handle_recognition env text w = (Return tt, add_events evs w) /\
    forallb is_dispatch_event evs = true.
Proof.
  unfold _handle_recognition, bind, get_self.
  destruct (match_command text (config (self w))) as [a|];
    [|exists []; rewrite add_events_nil; auto].
  destruct (truthy a); [|exists []; rewrite add_events_nil; auto].
  destruct (send_media_key_keys env a w) as (b & evs & -> & Hevs).
  unfold call. simpl. destruct (on_command (self w)).
  - exists (evs ++ [OnCommand a]). unfold emit, add_events. simpl.
    rewrite app_assoc, forallb_app, Hevs. auto.
  - exists evs. auto.
Qed.

(** While listening the capture callback appends the buffer. *)
Lemma audio_callback_listening (indata : frame) (w : World) :
  _paused (self w) = false ->
  _audio_callback indata w =
    (Return tt, with_self (set_queue (audio_queue (self w) ++ [indata]) (self w)) w).
Proof.
  intros Hp. unfold _audio_callback, bind, get_self. rewrite Hp. reflexivity.
Qed.

(** While listening a worker pass feeds the oldest frame, if there is one. *)
Lemma worker_pass_listening (env : Env) (answer : feed_result) (w : World) :
  listening w -> answers answer = true ->
  exists evs,
    forallb is_dispatch_event evs = true /\
    worker_pass env answer w =
      (Return tt,
       match audio_queue (self w) with
       | [] => w
       | data :: rest =>
           add_events (EngineFed data :: evs) (with_self (set_queue rest (self w)) w)
       end).
Proof.
  intros (Hal & Hrun & Hp & Hrec) Hans. destruct w as [l alive tr].
  destruct l as [cfg oc oe os m r s q running paused t].
  simpl in Hal, Hrun, Hp, Hrec. subst.
  unfold worker_pass, _process_audio_pass, add_events, with_self.
  unfold bind, try_except, get_self, is_alive, modify_self, set_alive, emit, ret.
  simpl. destruct q as [|data rest]; [exists []; auto|].
  destruct answer as [text| |e]; [| |discriminate]; simpl.
  - destruct (truthy text); simpl.
    + match goal with
      | |- context [_handle_recognition env text ?W] =>
          destruct (handle_recognition_world env text W) as (evs & Hh & Hd);
          rewrite Hh
      end.
      exists evs. split; [exact Hd|]. unfold add_events. simpl.
      rewrite <- app_assoc. reflexivity.
    + exists []. auto.
  - exists []. auto.
Qed.

(** One capture or worker pass keeps the listener listening and moves no
    frame out of order. *)
Lemma step_streaming (env : Env) (a : action) (w : World) :
  listening w -> streaming a = true ->
  listening (step env a w) /\
  fed (trace (step env a w)) ++ audio_queue (self (step env a w))
    = fed (trace w) ++ audio_queue (self w) ++ captured [a].
Proof.
  intros Hl Ha. destruct a as [d|answer| | | | |]; try discriminate.
  - destruct Hl as (Hal & Hrun & Hp & Hrec). unfold step, exec.
    rewrite (audio_callback_listening d w Hp). simpl.
    split; [repeat split; assumption|].
    destruct w as [l alive tr]. destruct l. reflexivity.
  - destruct (worker_pass_listening env answer Hl Ha) as (evs & Hd & Hw).
    destruct Hl as (Hal & Hrun & Hp & Hrec). unfold step, exec. rewrite Hw.
    simpl. rewrite app_nil_r.
    destruct (audio_queue (self w)) as [|data rest] eqn:Hq.
    + rewrite Hq, app_nil_r. split; [repeat split; assumption | reflexivity].
    + simpl. split; [repeat split; assumption|].
      rewrite fed_app. simpl. rewrite (fed_dispatch evs Hd).
      rewrite <- app_assoc. reflexivity.
Qed.

(** X14.  While the listener is listening and the engine answers, the
    queue is a faithful first-in first-out buffer: over every interleaving
    of capture callbacks and worker passes, the frames fed to the engine
    followed by the frames still queued are exactly the frames that were
    there before followed by the captured ones, in capture order.  No
    frame is lost, duplicated or overtaken. *)
Theorem frames_reach_the_engine_in_order
  (env : Env) (acts : list action) (w : World) :
  listening w ->
  forallb streaming acts = true ->
  listening (run env acts w) /\
  fed (trace (run env acts w)) ++ audio_queue (self (run env acts w))
    = fed (trace w) ++ audio_queue (self w) ++ captured acts.
Proof.
  revert w. induction acts as [|a acts IH]; intros w Hl Hacts.
  - simpl. rewrite app_nil_r. auto.
  - simpl in Hacts. apply andb_prop in Hacts. destruct Hacts as [Ha Hacts].
    destruct (step_streaming env a Hl Ha) as (Hl' & Hstep).
    destruct (IH (step env a w) Hl' Hacts) as (Hl2 & Hrest).
    rewrite run_cons. split; [exact Hl2|].
    rewrite Hrest, app_assoc, Hstep.
    replace (captured (a :: acts)) with (captured [a] ++ captured acts)
      by (unfold captured; simpl; rewrite app_nil_r; reflexivity).
    rewrite <- !app_assoc. reflexivity.
Qed.

Lemma frames_reach_the_engine_in_order_witness :
  let acts := [Capture [Byte.x02]; Worker Partial; Capture [Byte.x03];
               Worker (Final (py "hey music next")); Capture [Byte.x04];
               Worker Partial] in
  fed (trace (run env_ok acts world_listening))
  ++ audio_queue (self (run env_ok acts world_listening))
    = [[Byte.x01]; [Byte.x02]; [Byte.x03]; [Byte.x04]] /\
  fed (trace (run env_ok acts world_listening))
    = [[Byte.x01]; [Byte.x02]; [Byte.x03]].
Proof.
  intros acts.
  assert (Hl : listening world_listening) by (repeat split; reflexivity).
  destruct (frames_reach_the_engine_in_order env_ok acts Hl eq_refl)
    as (_ & Hfifo).
  split; [exact Hfifo | reflexivity].
Defined.

(** ** What every reachable world satisfies *)

(** A worker pass touches the queue, the liveness and the trace only, and
    it never brings a thread to life. *)
Lemma worker_pass_shape (env : Env) (answer : feed_result) (w : World) :
  exists q' alive' evs,
    worker_pass env answer w =
      (Return tt,
       {| self := set_queue q' (self w); worker_alive := alive';
          trace := trace w ++ evs |}) /\
    (alive' = true -> worker_alive w = true).
Proof.
  destruct w as [l alive tr].
  destruct l as [cfg oc oe os m r s q running paused t].
  unfold worker_pass, _process_audio_pass.
  unfold bind, try_except, get_self, is_alive, modify_self, set_alive, emit,
    raise, ret. simpl.
  assert (Hquiet : forall q' alive',
            (alive' = true -> alive = true) ->
            exists q'0 alive'0 evs,
              (Return tt,
               {| self := set_queue q'
                    (mkListener cfg oc oe os m r s q running paused t);
                  worker_alive := alive'; trace := tr |})
              = (Return tt,
                 {| self := set_queue q'0
                      (mkListener cfg oc oe os m r s q running paused t);
                    worker_alive := alive'0; trace := tr ++ evs |}) /\
              (alive'0 = true -> alive = true)).
  { intros q' alive' Ha. exists q', alive', []. rewrite app_nil_r.
    split; [reflexivity | exact Ha]. }
  destruct alive; simpl; [|apply (Hquiet q false); discriminate].
  destruct running; simpl; [|apply (Hquiet q false); discriminate].
  destruct q as [|data rest]; simpl; [apply (Hquiet [] true); reflexivity|].
  destruct paused; simpl; [apply (Hquiet rest true); reflexivity|].
  destruct r as [rec|]; simpl.
  2:{ eexists rest, false, [_]. split; [reflexivity | discriminate]. }
  destruct answer as [text| |e0]; simpl.
  - destruct (truthy text); simpl.
    + match goal with
      | |- context [_handle_recognition env text ?W] =>
          destruct (handle_recognition_world env text W) as (evs & Hh & Hd);
          rewrite Hh
      end.
      exists rest, true, (EngineFed data :: evs). unfold add_events. simpl.
      rewrite <- app_assoc. split; reflexivity.
    + exists rest, true, [EngineFed data]. split; reflexivity.
  - exists rest, true, [EngineFed data]. split; reflexivity.
  - exists rest, false, [ThreadDied e0]. split; [reflexivity | discriminate].
Qed.

(** Every action keeps the world consistent. *)
Lemma step_consistent (env : Env) (a : action) (w : World) :
  consistent w -> consistent (step env a w).
Proof.
  unfold consistent. intros (Hrun & Hal).
  destruct a as [d|answer| | | | |c]; unfold step, exec.
  - unfold _audio_callback, bind, get_self, modify_self, ret.
    destruct (_paused (self w)); simpl; split; assumption.
  - destruct (worker_pass_shape env answer w) as (q' & al' & evs & -> & Hal').
    simpl. split; [exact Hrun | intros H; exact (Hal (Hal' H))].
  - destruct (_running (self w)) eqn:E.
    + rewrite (start_running env w E). split; [intros _; auto | exact Hal].
    + destruct (startup_ok env (mic_device (config (self w)))) eqn:Hok.
      * rewrite (start_ok_world env w E Hok). simpl.
        split; intros _; repeat split; reflexivity.
      * destruct (start_fail_world env w E Hok)
          as (l' & evs & -> & _ & Hr & _ & Ht & _).
        simpl. split; [rewrite Hr; discriminate | rewrite Ht; exact Hal].
  - rewrite stop_world. simpl. split; [discriminate|].
    destruct (_thread (self w)) as [[]|]; simpl; [reflexivity | exact Hal].
  - rewrite pause_world. simpl. split; assumption.
  - rewrite resume_world. simpl. split; assumption.
  - simpl. split; assumption.
Qed.

Lemma run_consistent (env : Env) (acts : list action) (w : World) :
  consistent w -> consistent (run env acts w).
Proof.
  revert w. induction acts as [|a acts IH]; intros w Hc; [exact Hc|].
  rewrite run_cons. apply IH, step_consistent, Hc.
Qed.

(** In a consistent world a pass whose feed the engine answers with "not
    final yet" returns: the recognizer is there whenever the flag is set. *)
Lemma process_audio_pass_has_recognizer (env : Env) (w : World) (e : exn) :
  consistent w -> eval (_process_audio_pass env Partial) w <> Raise e.
Proof.
  intros (Hrun & _). destruct w as [l alive tr].
  destruct l as [cfg oc oe os m r s q running paused t]. simpl in Hrun.
  unfold _process_audio_pass. run_monad.
  destruct running; simpl; [|discriminate].
  destruct (Hrun eq_refl) as (_ & -> & _).
  destruct q; simpl; [discriminate|]. destruct paused; discriminate.
Qed.

(** X15.  From a freshly built listener, whatever the three threads do
    and whatever the collaborators answer, a listener whose running flag
    is set always holds its model, recognizer, stream and thread, and a
    live worker always has its thread handle.  So the worker never feeds
    a frame to a recognizer that is not there. *)
Theorem running_listener_is_equipped
  (env : Env) (acts : list action) (config : Config)
  (on_command on_error on_status : option callback) :
  consistent
    (run env acts (world0 (init config on_command on_error on_status))) /\
  forall e,
    eval (_process_audio_pass env Partial)
         (run env acts (world0 (init config on_command on_error on_status)))
    <> Raise e.
Proof.
  assert (H0 : consistent (world0 (init config on_command on_error on_status)))
    by (split; discriminate).
  pose proof (run_consistent env acts H0) as Hc.
  split; [exact Hc|]. intros e.
  apply process_audio_pass_has_recognizer. exact Hc.
Qed.

Lemma running_listener_is_equipped_witness :
  let acts := [CallStart; Capture [Byte.x01]; Worker (FeedError engine_failure);
               CallStop; CallStart; CallPause; Capture [Byte.x02]] in
  _running (self (run env_ok acts (world0 listener0))) = true /\
  recognizer (self (run env_ok acts (world0 listener0))) = Some Recognizer /\
  stream (self (run env_ok acts (world0 listener0))) = Some Stream.
Proof.
  intros acts.
  destruct (running_listener_is_equipped env_ok acts DEFAULT_CONFIG
              (Some Callback) (Some Callback) (Some Callback))
    as ((Hrun & _) & _).
  assert (Hr : _running (self (run env_ok acts (world0 listener0))) = true)
    by reflexivity.
  destruct (Hrun Hr) as (_ & Hrec & Hstream & _).
  split; [exact Hr|]. split; [exact Hrec | exact Hstream].
Defined.

(** ** The list of microphones and its use in the settings dialog *)

Lemma mic_loop_enumerate (devices : list Device) (start i : nat) (n : str) :
  In (i, n) (mic_loop (enumerate start devices)) <->
  exists d, start <= i /\ nth_error devices (i - start) = Some d /\
            0 < max_input_channels d /\ name d = n.
Proof.
  revert start. induction devices as [|d0 devices IH]; intros start; simpl.
  - split; [intros [] | intros (d & _ & H & _)].
    destruct (i - start); discriminate.
  - assert (Hrest :
      In (i, n) (mic_loop (enumerate (S start) devices)) <->
      exists d, start < i /\ nth_error (d0 :: devices) (i - start) = Some d /\
                0 < max_input_channels d /\ name d = n).
    { rewrite IH. split; intros (d & Hle & Hn & Hd); exists d.
      - split; [lia|]. replace (i - start) with (S (i - S start)) by lia.
        auto.
      - split; [lia|]. replace (i - start) with (S (i - S start)) in Hn by lia.
        auto. }
    destruct (Nat.ltb_spec 0 (max_input_channels d0)) as [Hpos | Hzero].
    + simpl. rewrite Hrest. split.
      * intros [[= <- <-] | (d & Hlt & Hn & Hd)].
        -- exists d0. rewrite Nat.sub_diag. auto.
        -- exists d. split; [lia | auto].
      * intros (d & Hle & Hn & Hd & Hname).
        destruct (Nat.eq_dec i start) as [-> | Hne].
        -- rewrite Nat.sub_diag in Hn. injection Hn as <-. left. congruence.
        -- right. exists d. split; [lia | auto].
    + rewrite Hrest. split.
      * intros (d & Hlt & Hn & Hd). exists d. split; [lia | auto].
      * intros (d & Hle & Hn & Hd & Hname).
        destruct (Nat.eq_dec i start) as [-> | Hne].
        -- rewrite Nat.sub_diag in Hn. injection Hn as <-. lia.
        -- exists d. split; [lia | auto].
Qed.

Lemma mic_loop_nodup (devices : list Device) (start : nat) :
  NoDup (map fst (mic_loop (enumerate start devices))).
Proof.
  revert start. induction devices as [|d0 devices IH]; intros start; simpl.
  - constructor.
  - destruct (0 <? max_input_channels d0); [|apply IH].
    simpl. constructor; [|apply IH].
    intros Hin. apply in_map_iff in Hin. destruct Hin as ((i & n) & Hi & Hin).
    simpl in Hi. subst i. apply mic_loop_enumerate in Hin.
    destruct Hin as (d & Hle & _). lia.
Qed.

(** X16.  [get_available_mics] lists exactly the devices that have input
    channels, each under its position in the full device list (the index
    [sounddevice] expects), every index once; when the device query
    raises it returns the empty list instead of failing. *)
Theorem get_available_mics_lists_inputs
  (devices : list Device) (e : exn) :
  (forall i n,
     In (i, n) (get_available_mics (Return devices)) <->
     exists d, nth_error devices i = Some d /\
               0 < max_input_channels d /\ name d = n) /\
  NoDup (map fst (get_available_mics (Return devices))) /\
  get_available_mics (Raise e) = [].
Proof.
  split; [|split; [apply mic_loop_nodup | reflexivity]].
  intros i n. unfold get_available_mics. rewrite mic_loop_enumerate.
  rewrite Nat.sub_0_r. split.
  - intros (d & _ & H). exists d. exact H.
  - intros (d & H). exists d. split; [lia | exact H].
Qed.

Lemma get_available_mics_lists_inputs_witness :
  In (2, py "webcam")
     (get_available_mics
        (Return [mkDevice (py "speakers") 0; mkDevice (py "headset") 1;
                 mkDevice (py "webcam") 2])) /\
  get_available_mics (Raise (Exception (py "PortAudio not initialized"))) = [].
Proof.
  destruct (get_available_mics_lists_inputs
              [mkDevice (py "speakers") 0; mkDevice (py "headset") 1;
               mkDevice (py "webcam") 2]
              (Exception (py "PortAudio not initialized")))
    as (Hin & _ & Hraise).
  split; [|exact Hraise].
  apply Hin. exists (mkDevice (py "webcam") 2).
  split; [reflexivity|]. split; [simpl; lia | reflexivity].
Defined.

Lemma find_mic_nth (mics : list (nat * str)) (i k index : nat) (n : str) :
  NoDup (map fst mics) ->
  nth_error mics k = Some (index, n) ->
  find_mic i mics index = i + k + 1.
Proof.
  revert i k. induction mics as [|[idx0 n0] mics IH]; intros i k Hnd Hk.
  - destruct k; discriminate.
  - simpl in Hnd. inversion Hnd as [|? ? Hnotin Hnd']; subst.
    destruct k as [|k]; simpl in *.
    + injection Hk as -> ->. rewrite Nat.eqb_refl. lia.
    + destruct (Nat.eqb_spec idx0 index) as [-> | Hne].
      * exfalso. apply Hnotin. apply nth_error_In in Hk.
        apply (in_map fst) in Hk. exact Hk.
      * rewrite (IH (S i) k Hnd' Hk). lia.
Qed.

Lemma find_mic_absent (mics : list (nat * str)) (i index : nat) :
  ~ In index (map fst mics) -> find_mic i mics index = 0.
Proof.
  revert i. induction mics as [|[idx0 n0] mics IH]; intros i Hnot; simpl.
  - reflexivity.
  - simpl in Hnot. destruct (Nat.eqb_spec idx0 index) as [-> | Hne].
    + exfalso. apply Hnot. left. reflexivity.
    + apply IH. intros H. apply Hnot. right. exact H.
Qed.

(** X17.  The device box of the settings dialog round-trips over the list
    of microphones: the device saved for a selected microphone is found
    again at the same position when the dialog loads it, position 0
    ("Default") and positions outside the list save no device and load as
    "Default", and a saved device that is no longer in the list loads as
    "Default" too. *)
Theorem mic_selection_round_trip
  (query_devices : result (list Device)) (pos stale : nat) :
  combo_position
    (saved_mic_device pos (get_available_mics query_devices))
    (get_available_mics query_devices)
  = (if (0 <? pos) && (pos <=? List.length (get_available_mics query_devices))
     then pos else 0) /\
  (~ In stale (map fst (get_available_mics query_devices)) ->
   combo_position (Some stale) (get_available_mics query_devices) = 0).
Proof.
  assert (Hnd : NoDup (map fst (get_available_mics query_devices))).
  { destruct query_devices; [apply mic_loop_nodup | constructor]. }
  set (mics := get_available_mics query_devices) in *. split.
  - unfold saved_mic_device.
    destruct ((0 <? pos) && (pos <=? List.length mics)) eqn:E; [|reflexivity].
    apply andb_prop in E. destruct E as [Hpos Hlen].
    apply Nat.ltb_lt in Hpos. apply Nat.leb_le in Hlen.
    destruct (nth_error mics (pos - 1)) as [[index n]|] eqn:Hn.
    + simpl. rewrite (find_mic_nth mics 0 (pos - 1) Hnd Hn). lia.
    + apply nth_error_None in Hn. lia.
  - intros Hnot. simpl. apply find_mic_absent. exact Hnot.
Qed.

Lemma mic_selection_round_trip_witness :
  let q := Return [mkDevice (py "speakers") 0; mkDevice (py "headset") 1;
                   mkDevice (py "webcam") 2] in
  get_available_mics q = [(1, py "headset"); (2, py "webcam")] /\
  saved_mic_device 2 (get_available_mics q) = Some 2 /\
  combo_position (saved_mic_device 2 (get_available_mics q))
                 (get_available_mics q) = 2 /\
  combo_position (Some 0) (get_available_mics q) = 0.
Proof.
  intros q.
  destruct (mic_selection_round_trip q 2 0) as (Hround & Hstale).
  split; [reflexivity|]. split; [reflexivity|]. split; [exact Hround|].
  apply Hstale. simpl. intros [H | [H | []]]; discriminate.
Defined.

(** ** Triggers in the settings dialog *)

Lemma str_split_no_sep (sep : ascii) (s piece : str) :
  In piece (str_split sep s) -> ~ In sep piece.
Proof.
  revert piece. induction s as [|c s IH]; intros piece; simpl.
  - intros [<- | []] [].
  - destruct (Ascii.eqb_spec c sep) as [-> | Hne].
    + intros [<- | Hin]; [intros [] | apply IH, Hin].
    + destruct (str_split sep s) as [|h t] eqn:E.
      * intros [<- | []] [H | []]. congruence.
      * intros [<- | Hin].
        -- intros [H | H]; [congruence|]. apply (IH h); [left; reflexivity | exact H].
        -- apply IH. right. exact Hin.
Qed.

Lemma str_split_whole (sep : ascii) (s : str) :
  ~ In sep s -> str_split sep s = [s].
Proof.
  induction s as [|c s IH]; intros Hnot; simpl; [reflexivity|].
  destruct (Ascii.eqb_spec c sep) as [-> | Hne].
  - exfalso. apply Hnot. left. reflexivity.
  - rewrite IH; [reflexivity|]. intros H. apply Hnot. right. exact H.
Qed.

Lemma str_split_app (sep : ascii) (s rest : str) :
  ~ In sep s -> str_split sep (s ++ sep :: rest) = s :: str_split sep rest.
Proof.
  induction s as [|c s IH]; intros Hnot; simpl.
  - rewrite Ascii.eqb_refl. reflexivity.
  - destruct (Ascii.eqb_spec c sep) as [-> | Hne].
    + exfalso. apply Hnot. left. reflexivity.
    + rewrite IH; [reflexivity|]. intros H. apply Hnot. right. exact H.
Qed.

Lemma strip_subset (s : str) (c : ascii) : In c (str_strip s) -> In c s.
Proof.
  intros H. unfold str_strip in H.
  destruct (rstrip_split (str_lstrip s)) as (q & Hq & _).
  destruct (lstrip_split s) as (p & Hp & _).
  rewrite Hp, Hq. apply in_or_app. right. apply in_or_app. left. exact H.
Qed.

(** X18.  Whatever is typed into a trigger entry of the settings dialog,
    the triggers read from it are never empty, have no blank at either
    end and contain no comma: empty pieces between commas are dropped. *)
Theorem parse_triggers_are_clean (entry_text : str) :
  Forall clean_trigger (parse_triggers entry_text).
Proof.
  apply Forall_forall. intros t Hin. unfold parse_triggers in Hin.
  destruct (truthy (str_strip entry_text)); [|contradiction].
  apply in_flat_map in Hin. destruct Hin as (piece & Hpiece & Ht).
  destruct (truthy (str_strip piece)) eqn:E; [|contradiction].
  destruct Ht as [<- | []]. split; [|split].
  - intros H. rewrite H in E. discriminate.
  - apply strip_idem.
  - intros H. apply strip_subset in H.
    exact (@str_split_no_sep _ _ _ Hpiece H).
Qed.

Lemma lstrip_length (s : str) : List.length (str_lstrip s) <= List.length s.
Proof.
  destruct (lstrip_split s) as (p & Hp & _). rewrite Hp at 2.
  rewrite length_app. lia.
Qed.

Lemma rstrip_length (s : str) : List.length (str_rstrip s) <= List.length s.
Proof.
  destruct (rstrip_split s) as (q & Hq & _). rewrite Hq at 2.
  rewrite length_app. lia.
Qed.

(** A text that [strip] leaves alone is left alone by both halves. *)
Lemma strip_fixed (t : str) :
  str_strip t = t -> str_lstrip t = t /\ str_rstrip t = t.
Proof.
  intros H. unfold str_strip in H.
  assert (Hl : str_lstrip t = t).
  { destruct (lstrip_split t) as (p & Hp & _).
    pose proof (rstrip_length (str_lstrip t)) as H1. rewrite H in H1.
    assert (Hlen : List.length p = 0).
    { apply (f_equal (@List.length ascii)) in Hp. rewrite length_app in Hp. lia. }
    destruct p; [|discriminate]. symmetry. exact Hp. }
  split; [exact Hl|]. rewrite Hl in H. exact H.
Qed.

Lemma rstrip_app (a b : str) :
  str_rstrip b <> [] -> str_rstrip (a ++ b) = a ++ str_rstrip b.
Proof.
  intros H. unfold str_rstrip in *. rewrite rev_app_distr, lstrip_app.
  - rewrite rev_app_distr, rev_involutive. reflexivity.
  - intros E. apply H. rewrite E. reflexivity.
Qed.

Lemma show_triggers_cons (t t' : str) (rest : list str) :
  show_triggers (t :: t' :: rest)
    = t ++ comma :: py " " ++ show_triggers (t' :: rest).
Proof. reflexivity. Qed.

(** The entry text of clean triggers is not empty and has no blank at
    either end. *)
Lemma show_triggers_fixed (ts : list str) :
  ts <> [] -> Forall clean_trigger ts ->
  show_triggers ts <> [] /\
  str_lstrip (show_triggers ts) = show_triggers ts /\
  str_rstrip (show_triggers ts) = show_triggers ts.
Proof.
  induction ts as [|t ts IH]; [congruence|]. intros _ Hall.
  inversion Hall as [|? ? (Hne & Hstrip & Hcomma) Hrest]; subst.
  destruct (@strip_fixed t Hstrip) as (Hl & Hr).
  destruct ts as [|t' ts].
  - unfold show_triggers. simpl. auto.
  - destruct (IH ltac:(discriminate) Hrest) as (Hne' & Hl' & Hr').
    rewrite show_triggers_cons. split; [|split].
    + destruct t; [congruence | discriminate].
    + rewrite lstrip_app by (rewrite Hl; exact Hne). rewrite Hl. reflexivity.
    + change (t ++ comma :: py " " ++ show_triggers (t' :: ts))
        with (t ++ (comma :: py " ") ++ show_triggers (t' :: ts)).
      rewrite !app_assoc. rewrite rstrip_app by (rewrite Hr'; exact Hne').
      rewrite Hr'. reflexivity.
Qed.

(** Reading the pieces of the entry text of clean triggers. *)
Lemma parse_pieces (ts : list str) (pre : str) :
  ts <> [] -> Forall clean_trigger ts ->
  forallb isspace pre = true -> ~ In comma pre ->
  flat_map (fun t => if truthy (str_strip t) then [str_strip t] else [])
           (str_split comma (pre ++ show_triggers ts)) = ts.
Proof.
  revert pre. induction ts as [|t ts IH]; [congruence|].
  intros pre _ Hall Hpre Hnc.
  inversion Hall as [|? ? (Hne & Hstrip & Hcomma) Hrest]; subst.
  assert (Hpiece : str_strip (pre ++ t) = t).
  { rewrite <- (app_nil_r t) at 1. rewrite strip_blanks; auto. }
  assert (Hfree : ~ In comma (pre ++ t)).
  { intros H. apply in_app_or in H. tauto. }
  destruct ts as [|t' ts].
  - unfold show_triggers. simpl str_join.
    rewrite (@str_split_whole comma _ Hfree). simpl. rewrite Hpiece.
    destruct t; [congruence | reflexivity].
  - rewrite show_triggers_cons, app_assoc, (@str_split_app comma _ _ Hfree).
    cbn [flat_map]. rewrite Hpiece.
    rewrite (IH (py " ") ltac:(discriminate) Hrest (eq_refl : forallb isspace (py " ") = true)).
    + destruct t; [congruence | reflexivity].
    + intros [H | []]. discriminate.
Qed.

(** X19.  Triggers survive the settings dialog: showing a list of clean
    triggers in an entry (joined by ", ") and reading the entry back on
    save gives the same list, so opening and saving the dialog does not
    change the configured triggers. *)
Theorem triggers_round_trip (triggers : list str) :
  Forall clean_trigger triggers ->
  parse_triggers (show_triggers triggers) = triggers.
Proof.
  intros Hall. destruct triggers as [|t ts]; [reflexivity|].
  destruct (@show_triggers_fixed (t :: ts) ltac:(discriminate) Hall)
    as (Hne & Hl & Hr).
  unfold parse_triggers, str_strip. rewrite Hl, Hr.
  destruct (show_triggers (t :: ts)) eqn:E; [congruence|]. simpl truthy.
  rewrite <- E. apply (@parse_pieces (t :: ts) []); auto. discriminate.
Qed.

Lemma triggers_round_trip_witness :
  show_triggers [py "next"; py "skip this"] = py "next, skip this" /\
  parse_triggers (py "next, skip this") = [py "next"; py "skip this"] /\
  parse_triggers (py " next ,, skip this , ") = [py "next"; py "skip this"].
Proof.
  split; [reflexivity|]. split; [|reflexivity].
  apply (@triggers_round_trip [py "next"; py "skip this"]).
  repeat constructor; try discriminate;
    intros H; simpl in H;
    repeat (destruct H as [H | H]; [discriminate|]); exact H.
Defined.

(** ** Loading the configuration file *)

Lemma str_eqb_refl (k : str) : str_eqb k k = true.
Proof. apply str_eqb_eq. reflexivity. Qed.

Lemma str_eqb_neq (a b : str) : str_eqb a b = false <-> a <> b.
Proof.
  unfold str_eqb. destruct (list_eq_dec ascii_dec a b); split; congruence.
Qed.

Section Dicts.

Variable V : Type.

Lemma dict_get_none (d : list (str * V)) (k : str) :
  ~ In k (map fst d) -> dict_get d k = None.
Proof.
  induction d as [|[k0 v0] d IH]; simpl; [reflexivity|]. intros Hnot.
  destruct (str_eqb k0 k) eqn:E.
  - apply str_eqb_eq in E. tauto.
  - apply IH. tauto.
Qed.

(** Reading after writing. *)
Lemma dict_get_set (d : list (str * V)) (k k' : str) (v : V) :
  dict_get (dict_set d k v) k' =
    if str_eqb k k' then Some v else dict_get d k'.
Proof.
  induction d as [|[k0 v0] d IH]; simpl; [reflexivity|].
  destruct (str_eqb k0 k) eqn:E; simpl.
  - apply str_eqb_eq in E. subst k0. destruct (str_eqb k k'); reflexivity.
  - rewrite IH. destruct (str_eqb k0 k') eqn:E0; [|reflexivity].
    apply str_eqb_eq in E0. subst k0.
    destruct (str_eqb k k') eqn:E1; [|reflexivity].
    apply str_eqb_eq in E1. subst k'. rewrite str_eqb_refl in E. discriminate.
Qed.

(** A write keeps the keys in place and puts a new key last. *)
Lemma dict_set_keys (d : list (str * V)) (k : str) (v : V) :
  exists extra,
    map fst (dict_set d k v) = map fst d ++ extra /\
    forall k', In k' extra -> k' = k /\ ~ In k (map fst d).
Proof.
  induction d as [|[k0 v0] d (extra & Hk & Hextra)]; simpl.
  - exists [k]. split; [reflexivity|]. intros k' [<- | []]. auto.
  - destruct (str_eqb k0 k) eqn:E; simpl.
    + exists []. rewrite app_nil_r. split; [reflexivity | intros ? []].
    + exists extra. rewrite Hk. split; [reflexivity|].
      intros k' Hin. destruct (Hextra k' Hin) as (-> & Hnot).
      split; [reflexivity|]. apply str_eqb_neq in E. tauto.
Qed.

Lemma dict_merge_keys (a b : list (str * V)) :
  exists extra,
    map fst (dict_merge a b) = map fst a ++ extra /\
    forall k, In k extra -> In k (map fst b) /\ ~ In k (map fst a).
Proof.
  revert a. induction b as [|[k0 v0] b IH]; intros a.
  - exists []. simpl. rewrite app_nil_r. split; [reflexivity | intros ? []].
  - unfold dict_merge. simpl. fold (dict_merge (dict_set a k0 v0) b).
    destruct (IH (dict_set a k0 v0)) as (extra & Hk & Hextra).
    destruct (dict_set_keys a k0 v0) as (e0 & Hk0 & He0).
    exists (e0 ++ extra). rewrite Hk, Hk0, app_assoc.
    split; [reflexivity|]. intros k Hin. apply in_app_or in Hin.
    destruct Hin as [Hin | Hin].
    + destruct (He0 k Hin) as (-> & Hnot). split; [left; reflexivity | exact Hnot].
    + destruct (Hextra k Hin) as (Hb & Hnot). split; [right; exact Hb|].
      intros Ha. apply Hnot. rewrite Hk0. apply in_or_app. left. exact Ha.
Qed.

Lemma dict_merge_get (a b : list (str * V)) (k : str) :
  NoDup (map fst b) ->
  dict_get (dict_merge a b) k =
    match dict_get b k with Some v => Some v | None => dict_get a k end.
Proof.
  revert a. induction b as [|[k0 v0] b IH]; intros a Hnd; [reflexivity|].
  simpl in Hnd. inversion Hnd as [|? ? Hnot Hnd']; subst.
  unfold dict_merge. simpl. fold (dict_merge (dict_set a k0 v0) b).
  rewrite (IH (dict_set a k0 v0) Hnd'), dict_get_set.
  destruct (str_eqb k0 k) eqn:E; [|reflexivity].
  apply str_eqb_eq in E. subst k0. rewrite (dict_get_none b k Hnot).
  reflexivity.
Qed.

End Dicts.

(** X20.  [{**defaults, **user}] as [load_config] uses it: a key of the
    user's mapping gets the user's value and every other key keeps the
    default value; the default keys keep their places at the front, and
    the keys that are new come after them. *)
Theorem dict_merge_overrides_in_place
  (defaults user : list (str * list str)) :
  NoDup (map fst user) ->
  (forall k,
     dict_get (dict_merge defaults user) k =
       match dict_get user k with
       | Some v => Some v
       | None => dict_get defaults k
       end) /\
  exists extra,
    map fst (dict_merge defaults user) = map fst defaults ++ extra /\
    forall k, In k extra -> In k (map fst user) /\ ~ In k (map fst defaults).
Proof.
  intros Hnd. split.
  - intros k. apply dict_merge_get. exact Hnd.
  - apply dict_merge_keys.
Qed.

Lemma dict_merge_overrides_in_place_witness :
  (forall k,
     dict_get (dict_merge default_commands (get_commands user_file)) k =
       match dict_get (get_commands user_file) k with
       | Some v => Some v
       | None => dict_get default_commands k
       end) /\
  exists extra,
    map fst (dict_merge default_commands (get_commands user_file))
      = map fst default_commands ++ extra /\
    forall k, In k extra ->
      In k (map fst (get_commands user_file)) /\ ~ In k (map fst default_commands).
Proof.
  apply (@dict_merge_overrides_in_place default_commands (get_commands user_file)).
  simpl. repeat constructor; simpl; intros H;
    repeat (destruct H as [H | H]; [discriminate|]); exact H.
Defined.





(** The typed model of [ConfigFile] is this function on files whose values
    have the types of the defaults. *)
Lemma json_commands_set (d : list (str * list str)) (k : str) (v : list str) :
  dict_set (json_commands d) k (json_triggers v) = json_commands (dict_set d k v).
Proof.
  induction d as [|[k0 v0] d IH]; simpl; [reflexivity|].
  destruct (str_eqb k0 k); simpl; [reflexivity | rewrite IH; reflexivity].
Qed.

Lemma json_commands_merge (a b : list (str * list str)) :
  dict_merge (json_commands a) (json_commands b) = json_commands (dict_merge a b).
Proof.
  revert a. induction b as [|[k v] b IH]; intros a; [reflexivity|].
  unfold dict_merge. simpl.
  fold (dict_merge (dict_set (json_commands a) k (json_triggers v)) (json_commands b)).
  fold (dict_merge (dict_set a k v) b).
  rewrite json_commands_set. apply IH.
Qed.

Lemma decode_json_triggers (triggers : list str) :
  decode_triggers (map JString triggers) = Some triggers.
Proof.
  induction triggers as [|t ts IH]; simpl; [reflexivity | rewrite IH; reflexivity].
Qed.

Lemma decode_json_commands (cmds : list (str * list str)) :
  decode_commands (json_commands cmds) = Some cmds.
Proof.
  induction cmds as [|[k v] cmds IH]; simpl; [reflexivity|].
  rewrite decode_json_triggers, IH. reflexivity.
Qed.

Lemma load_config_typed (user : Config) :
  decode DEFAULT_CONFIG_json = Some DEFAULT_CONFIG /\
  exists config,
    fst (load_config_json (Json (JObject (encode user)))) = Return config /\
    decode config = Some (fst (load_config (Parsed user))).
Proof.
  split; [reflexivity|]. eexists. split; [reflexivity|].
  assert (Hmerge : forall value,
            decode_commands (dict_merge default_commands_json (json_commands value))
            = Some (dict_merge default_commands value)).
  { intros value.
    change default_commands_json with (json_commands default_commands).
    rewrite json_commands_merge. apply decode_json_commands. }
  destruct user as [[b|] [w|] [value|] [d|]];
    unfold encode, decode, merge_user;
    repeat (cbn -[dict_merge default_commands_json];
            match goal with
            | |- context [str_eqb (py ?a) (py ?b)] =>
                let v := eval vm_compute in (str_eqb (py a) (py b)) in
                change (str_eqb (py a) (py b)) with v
            end);
    cbn -[dict_merge default_commands_json];
    rewrite ?Hmerge; reflexivity.
Qed.

(** X22.  For a configuration file with a commands mapping, the triggers
    the loaded configuration holds for an action are the file's when the
    file names the action, and the defaults otherwise: triggers from the
    file replace the default triggers of that action, they are not added
    to them. *)
Theorem load_config_user_triggers_replace (user : Config)
  (value : list (str * list str)) (k : str) :
  commands user = Some value ->
  NoDup (map fst value) ->
  dict_get (get_commands (fst (load_config (Parsed user)))) k =
    match dict_get value k with
    | Some triggers => Some triggers
    | None => dict_get default_commands k
    end.
Proof.
  intros Hc Hnd. simpl. unfold merge_user, get_commands. simpl. rewrite Hc.
  apply dict_merge_get. exact Hnd.
Qed.

Lemma load_config_user_triggers_replace_witness :
  dict_get (get_commands (fst (load_config (Parsed user_file)))) (py "next")
    = Some [py "forward"] /\
  match_command (py "computer skip") (fst (load_config (Parsed user_file)))
    = None /\
  match_command (py "computer forward") (fst (load_config (Parsed user_file)))
    = Some (py "next").
Proof.
  split; [|split; reflexivity].
  apply (@load_config_user_triggers_replace user_file
           (get_commands user_file) (py "next") eq_refl).
  simpl. repeat constructor; simpl; intros H;
    repeat (destruct H as [H | H]; [discriminate|]); exact H.
Defined.
